(** * gh-sync-issues: the reconciliation engine of [gh_sync_issues.py]

    A shallow embedding of [comp_newline], the [Issue] dataclass with its
    dirty list, and the [push] command, followed by the properties of the
    specification that concern them.

    Python values are restricted to the shapes the [Issue] dataclass
    declares for its fields: [None], [int], [str] and [list[str]].  Fields
    are not checked at run time, so every field may hold any of them.  A
    [str] is a [string], one [ascii] for each of its characters. *)

From stdpp Require Import base option list strings gmap.
From Stdlib Require Import ZArith Ascii String.

Local Open Scope string_scope.
Local Open Scope Z_scope.
Local Open Scope list_scope.

(** ** Python values *)

Inductive value :=
  | VNone
  | VInt (n : Z)
  | VStr (s : string)
  | VList (l : list string).

#[global] Instance value_eq_dec : EqDecision value.
Proof. solve_decision. Defined.

(** [a == b] on the values above: structural, and values of different
    shapes are never equal. *)
Definition py_eq (a b : value) : bool := bool_decide (a = b).

Definition CR : ascii := "013"%char.
Definition LF : ascii := "010"%char.

(** [s.replace("\r\n", "\n")]: one left-to-right pass, every occurrence of
    the two-character sequence is replaced, the text produced is not
    scanned again. *)
Fixpoint replace_crlf (s : string) : string :=
  match s with
  | EmptyString => EmptyString
  | String c s' =>
      match s' with
      | String c' s'' =>
          if bool_decide (c = CR) && bool_decide (c' = LF)
          then String LF (replace_crlf s'')
          else String c (replace_crlf s')
      | EmptyString => String c EmptyString
      end
  end.

(** The two [isinstance(_, str)] branches of [comp_newline]. *)
Definition normalise (v : value) : value :=
  match v with
  | VStr s => VStr (replace_crlf s)
  | _ => v
  end.

(** [comp_newline(a, b)], lines 18-26. *)
Definition comp_newline (a b : value) : bool :=
  py_eq (normalise a) (normalise b).

(** ** The [Issue] dataclass, lines 29-103 *)

(** A keyword dictionary (keyword arguments, a YAML mapping, a payload): ordered,
    keyed by strings.  A Python dict has pairwise distinct keys; the
    statements that depend on it assume [NoDup (kwargs.*1)]. *)
Abbreviation dict := (list (string * value)).

Record Issue := mkIssue {
  number : value;
  title : value;
  body : value;
  assignees : value;
  labels : value;
  dirty : list string
}.

(** [[f.name for f in dataclasses.fields(self)]]: [dirty] is set in
    [__post_init__] and is not a dataclass field. *)
Definition field_names : list string :=
  ["number"; "title"; "body"; "assignees"; "labels"].

Definition is_field (k : string) : bool := bool_decide (k ∈ field_names).

(** [getattr(self, k, None)] for the field names; [update] never asks for
    another name. *)
Definition getattr (self : Issue) (k : string) : value :=
  if bool_decide (k = "number") then number self
  else if bool_decide (k = "title") then title self
  else if bool_decide (k = "body") then body self
  else if bool_decide (k = "assignees") then assignees self
  else if bool_decide (k = "labels") then labels self
  else VNone.

(** [setattr(self, k, v)] for the field names. *)
Definition setattr (self : Issue) (k : string) (v : value) : Issue :=
  if bool_decide (k = "number") then
    mkIssue v (title self) (body self) (assignees self) (labels self) (dirty self)
  else if bool_decide (k = "title") then
    mkIssue (number self) v (body self) (assignees self) (labels self) (dirty self)
  else if bool_decide (k = "body") then
    mkIssue (number self) (title self) v (assignees self) (labels self) (dirty self)
  else if bool_decide (k = "assignees") then
    mkIssue (number self) (title self) (body self) v (labels self) (dirty self)
  else if bool_decide (k = "labels") then
    mkIssue (number self) (title self) (body self) (assignees self) v (dirty self)
  else self.

(** [self.dirty.append(k)]. *)
Definition dirty_append (self : Issue) (k : string) : Issue :=
  mkIssue (number self) (title self) (body self) (assignees self) (labels self)
          (dirty self ++ [k]).

(** [Issue.update], lines 79-103; [kwargs] is the keyword dictionary. *)
Fixpoint update (self : Issue) (kwargs : dict) : Issue :=
  match kwargs with
  | [] => self
  | (k, v) :: rest =>
      if negb (is_field k) then update self rest
      else if comp_newline (getattr self k) v then update self rest
      else update (dirty_append (setattr self k v) k) rest
  end.

(** [dataclasses.asdict(self)], then the [skip_missing] filter of
    [to_dict], lines 56-59. *)
Definition asdict (self : Issue) : dict :=
  List.map (fun k => (k, getattr self k)) field_names.

Definition not_none (v : value) : bool :=
  match v with VNone => false | _ => true end.

Definition to_dict (self : Issue) (skip_missing : bool) : dict :=
  if skip_missing then List.filter (fun kv => not_none (snd kv)) (asdict self)
  else asdict self.

(** [Issue._dirty_dict()], lines 75-77. *)
Definition _dirty_dict (self : Issue) : dict :=
  List.filter (fun kv => bool_decide (fst kv ∈ dirty self)) (to_dict self false).

(** [to_dict(yaml=True, ...)], lines 61-71: each string is wrapped as a
    literal (block) or plain scalar and each list as a flow sequence.  The
    wrappers are subclasses of [str] and [list] with the same content, so
    the embedding records the chosen style next to the unchanged value. *)
Inductive yaml_style := LiteralScalar | PlainScalar | FlowSeq | Unstyled.

Fixpoint contains_lf (s : string) : bool :=
  match s with
  | EmptyString => false
  | String c s' => bool_decide (c = LF) || contains_lf s'
  end.

Definition yaml_wrap (v : value) : yaml_style :=
  match v with
  | VStr s =>
      if contains_lf s || bool_decide (80 < String.length s)%nat
      then LiteralScalar else PlainScalar
  | VList _ => FlowSeq
  | _ => Unstyled
  end.

Definition to_dict_yaml (self : Issue) (skip_missing : bool)
  : list (string * (yaml_style * value)) :=
  List.map (fun kv => (fst kv, (yaml_wrap (snd kv), snd kv)))
           (to_dict self skip_missing).

(** ** Exceptions, and the constructor [Issue(kwargs)] *)

Inductive exn :=
  | UsageError (msg : string)       (* click.UsageError *)
  | TypeError
  | ValueError
  | AssertionError
  | GithubException (status : Z).

(** [k in d] and [d[k]] on a keyword dictionary. *)
Fixpoint dict_get (k : string) (d : dict) : option value :=
  match d with
  | [] => None
  | (k', v) :: rest => if bool_decide (k' = k) then Some v else dict_get k rest
  end.

Definition dict_default (k : string) (d : dict) : value :=
  default VNone (dict_get k d).

(** The generated [__init__] (keyword-only, every field defaulting to
    [None]) followed by [__post_init__]: a keyword that is not a field
    raises [TypeError]. *)
Definition Issue_init (kwargs : dict) : exn + Issue :=
  if forallb (fun kv => is_field (fst kv)) kwargs then
    inr (mkIssue (dict_default "number" kwargs) (dict_default "title" kwargs)
                 (dict_default "body" kwargs) (dict_default "assignees" kwargs)
                 (dict_default "labels" kwargs) [])
  else inl TypeError.

(** The call [existing_issue.update(kwargs)] with a record of the file
    as keyword arguments.  The method is [update(self, kwargs)]: a key
    [self] in the record collides with the receiver and the call raises
    [TypeError] before the body runs.  Every other key reaches the body. *)
Definition call_update (self : Issue) (kwargs : dict) : exn + Issue :=
  match dict_get "self" kwargs with
  | Some _ => inl TypeError
  | None => inr (update self kwargs)
  end.

(** ** The remote collaborator (PyGithub), at its interface *)

(** What [from_github] reads of a [github.Issue.Issue]: the number, the
    title, the body ([None] when the issue has none), the logins of the
    assignees and the names of the labels. *)
Record ghissue := mkGh {
  gh_number : Z;
  gh_title : string;
  gh_body : option string;
  gh_assignees : list string;
  gh_labels : list string
}.

(** [Issue.from_github], lines 105-128. *)
Definition from_github (issue : ghissue) : Issue :=
  mkIssue (VInt (gh_number issue)) (VStr (gh_title issue))
          (from_option VStr VNone (gh_body issue))
          (VList (gh_assignees issue)) (VList (gh_labels issue)) [].

(** The three operations [push] uses, over an abstract state of the
    remote repository: [repo.get_issue(n)], [gh_issue.edit(payload)] and
    [repo.create_issue(payload)].  Each may raise. *)
Class Remote := {
  repo : Type;
  get_issue : repo -> Z -> exn + ghissue;
  edit : repo -> ghissue -> dict -> exn + repo;
  create_issue : repo -> dict -> exn + (repo * ghissue)
}.

(** The builtin [int(s)] on a string ([None]: [ValueError]). *)
Class Builtins := { int_of_str : string -> option Z }.

(** [int(v)], as in [int(issue["number"])]. *)
Definition py_int `{Builtins} (v : value) : exn + Z :=
  match v with
  | VInt n => inr n
  | VStr s => from_option inr (inl ValueError) (int_of_str s)
  | VNone | VList _ => inl TypeError
  end.

(** ** Observable effects of a run *)

(** Calls made on the remote collaborator, in order, logged when made. *)
Inductive call :=
  | CallGetIssue (n : Z)
  | CallEdit (n : Z) (payload : dict)
  | CallCreateIssue (payload : dict).

Definition is_mutation (c : call) : bool :=
  match c with CallGetIssue _ => false | _ => true end.

(** Lines given to [click.echo]; YAML dumps are kept as the data dumped. *)
Inductive message :=
  | EchoUpdating (n : value)
  | EchoChanges
  | EchoDump (d : dict)
  | EchoUpdated
  | EchoNotUpdated
  | EchoAdding
  | EchoDumpStyled (d : list (string * (yaml_style * value)))
  | EchoAdded (n : Z)
  | EchoNotAdded
  | EchoUpdatingInput
  | EchoNotUpdatingInput
  | EchoBlank.

(** The lines that describe the action chosen for a record, as opposed to
    the lines that report whether it was applied. *)
Definition is_description (m : message) : bool :=
  match m with
  | EchoUpdating _ | EchoChanges | EchoDump _ | EchoAdding | EchoDumpStyled _ => true
  | _ => false
  end.

(** ** The [push] command, lines 244-314 *)

Section Push.

Context `{R : Remote} `{B : Builtins}.

(** State threaded through the loop: the remote repository, the calls made
    on it, the lines echoed, and the flag [new_issues_added]. *)
Record pstate := mkState {
  st_repo : repo;
  st_calls : list call;
  st_out : list message;
  new_issues_added : bool
}.

(** A computation that reads and writes the state and may raise. *)
Definition M (A : Type) : Type := pstate -> pstate * (exn + A).

Definition ret {A} (a : A) : M A := fun s => (s, inr a).

Definition raise {A} (e : exn) : M A := fun s => (s, inl e).

Definition bind {A B} (m : M A) (f : A -> M B) : M B :=
  fun s =>
    match m s with
    | (s', inl e) => (s', inl e)
    | (s', inr a) => f a s'
    end.

Notation "'do' x <- m ; k" := (bind m (fun x => k))
  (at level 10, x name, m at level 100, k at level 200).
Notation "m ;; k" := (bind m (fun _ => k))
  (at level 100, k at level 200, right associativity).

Definition lift {A} (r : exn + A) : M A := fun s => (s, r).

Definition echo (m : message) : M unit :=
  fun s => (mkState (st_repo s) (st_calls s) (st_out s ++ [m]) (new_issues_added s), inr tt).

Definition log_call (c : call) : M unit :=
  fun s => (mkState (st_repo s) (st_calls s ++ [c]) (st_out s) (new_issues_added s), inr tt).

Definition set_repo (r : repo) : M unit :=
  fun s => (mkState r (st_calls s) (st_out s) (new_issues_added s), inr tt).

Definition set_new_issues_added : M unit :=
  fun s => (mkState (st_repo s) (st_calls s) (st_out s) true, inr tt).

(** [repo.get_issue(n)] *)
Definition do_get_issue (n : Z) : M ghissue :=
  log_call (CallGetIssue n);;
  fun s => (s, get_issue (st_repo s) n).

(** [gh_issue.edit(payload)] *)
Definition do_edit (gh_issue : ghissue) (payload : dict) : M unit :=
  log_call (CallEdit (gh_number gh_issue) payload);;
  do r <- (fun s => (s, edit (st_repo s) gh_issue payload));
  set_repo r.

(** [repo.create_issue(payload)] *)
Definition do_create_issue (payload : dict) : M ghissue :=
  log_call (CallCreateIssue payload);;
  do rg <- (fun s => (s, create_issue (st_repo s) payload));
  set_repo (fst rg);;
  ret (snd rg).

(** The body of the loop, lines 266-306, for one record [issue] of the
    file.  It returns the record as it stands in memory afterwards:
    [issue.insert(0, "number", issue_number)] puts the new key first. *)
Definition push_one (dry_run : bool) (issue : dict) : M dict :=
  match dict_get "number" issue with
  | Some num =>
      do n <- lift (py_int num);
      do gh_issue <- do_get_issue n;
      do existing_issue <- lift (call_update (from_github gh_issue) issue);
      if bool_decide (dirty existing_issue = []) then ret issue
      else
        echo (EchoUpdating (number existing_issue));;
        echo EchoChanges;;
        echo (EchoDump (_dirty_dict existing_issue));;
        echo EchoBlank;;
        (if negb dry_run then
           do_edit gh_issue (_dirty_dict existing_issue);;
           echo EchoUpdated
         else echo EchoNotUpdated);;
        echo EchoBlank;;
        ret issue
  | None =>
      do new_issue <- lift (Issue_init issue);
      if bool_decide (title new_issue = VNone) then
        raise (UsageError "All issues must have a title.")
      else
        echo EchoAdding;;
        echo (EchoDumpStyled (to_dict_yaml new_issue true));;
        echo EchoBlank;;
        if negb dry_run then
          do gh_issue <- do_create_issue (to_dict new_issue true);
          let issue_number := gh_number gh_issue in
          echo (EchoAdded issue_number);;
          set_new_issues_added;;
          echo EchoBlank;;
          ret (("number", VInt issue_number) :: issue)
        else
          echo EchoNotAdded;;
          echo EchoBlank;;
          ret issue
  end.

(** [for issue in issues: ...], in file order; an exception ends the loop. *)
Fixpoint push_loop (dry_run : bool) (issues : list dict) : M (list dict) :=
  match issues with
  | [] => ret []
  | issue :: rest =>
      do issue' <- push_one dry_run issue;
      do rest' <- push_loop dry_run rest;
      ret (issue' :: rest')
  end.

(** What a run leaves behind: the final state, the exception that ended it
    if any, the content of the input file, and how many times the file
    was written. *)
Record outcome := mkOutcome {
  end_state : pstate;
  raised : option exn;
  input_file : list dict;
  file_writes : nat
}.

(** [push(input, repo, dry_run, update_input)] on the records loaded from
    the file and the resolved repository. *)
Definition push (dry_run update_input : bool) (issues : list dict) (r : repo)
  : outcome :=
  match push_loop dry_run issues (mkState r [] [] false) with
  | (s, inl e) => mkOutcome s (Some e) issues 0
  | (s, inr issues') =>
      if new_issues_added s then
        if update_input then
          mkOutcome (fst (echo EchoUpdatingInput s)) None issues' 1
        else
          mkOutcome (fst (echo EchoNotUpdatingInput s)) None issues 0
      else mkOutcome s None issues 0
  end.

(** The remote-mutating calls (create or update) of a run. *)
Definition mutations (o : outcome) : list call :=
  List.filter is_mutation (st_calls (end_state o)).

End Push.

Arguments pstate {R}.
Arguments outcome {R}.

(** ** An idealised remote: a tracker that stores what it is sent *)

(** The fields [edit] and [create_issue] accept as keywords. *)
Definition remote_fields : list string := ["title"; "body"; "assignees"; "labels"].

(** The keywords of a payload bound to the arguments of [edit] or
    [create_issue].  PyGithub asserts the type of each argument it is
    given and has no [number] keyword; an argument that is not given
    keeps the value [old]. *)
Definition kw_str (k : string) (payload : dict) (old : string) : exn + string :=
  match dict_get k payload with
  | None => inr old
  | Some (VStr s) => inr s
  | Some _ => inl AssertionError
  end.

Definition kw_opt_str (k : string) (payload : dict) (old : option string)
  : exn + option string :=
  match dict_get k payload with
  | None => inr old
  | Some (VStr s) => inr (Some s)
  | Some _ => inl AssertionError
  end.

Definition kw_list (k : string) (payload : dict) (old : list string)
  : exn + list string :=
  match dict_get k payload with
  | None => inr old
  | Some (VList l) => inr l
  | Some _ => inl AssertionError
  end.

Definition set_fields (g : ghissue) (payload : dict) : exn + ghissue :=
  if forallb (fun kv => bool_decide (fst kv ∈ remote_fields)) payload then
    match kw_str "title" payload (gh_title g) with
    | inl e => inl e
    | inr t =>
        match kw_opt_str "body" payload (gh_body g) with
        | inl e => inl e
        | inr b =>
            match kw_list "assignees" payload (gh_assignees g) with
            | inl e => inl e
            | inr a =>
                match kw_list "labels" payload (gh_labels g) with
                | inl e => inl e
                | inr l => inr (mkGh (gh_number g) t b a l)
                end
            end
        end
    end
  else inl TypeError.

(** Issue numbers are handed out in sequence. *)
Definition next_number (m : gmap Z ghissue) : Z :=
  Z.succ (map_fold (fun n _ acc => Z.max n acc) 0 m).

(** The issue stored under [n], reported with the number [n]. *)
Definition with_number (n : Z) (g : ghissue) : ghissue :=
  mkGh n (gh_title g) (gh_body g) (gh_assignees g) (gh_labels g).

Definition tracker_get (m : gmap Z ghissue) (n : Z) : exn + ghissue :=
  match m !! n with
  | Some g => inr (with_number n g)
  | None => inl (GithubException 404)
  end.

Definition tracker_edit (m : gmap Z ghissue) (g : ghissue) (payload : dict)
  : exn + gmap Z ghissue :=
  match m !! gh_number g with
  | None => inl (GithubException 404)
  | Some g0 =>
      match set_fields g0 payload with
      | inl e => inl e
      | inr g' => inr (<[gh_number g := g']> m)
      end
  end.

Definition tracker_create (m : gmap Z ghissue) (payload : dict)
  : exn + (gmap Z ghissue * ghissue) :=
  match dict_get "title" payload with
  | None => inl TypeError
  | Some _ =>
      match set_fields (mkGh (next_number m) "" None [] []) payload with
      | inl e => inl e
      | inr g => inr (<[gh_number g := g]> m, g)
      end
  end.

Definition tracker : Remote :=
  {| repo := gmap Z ghissue;
     get_issue := tracker_get;
     edit := tracker_edit;
     create_issue := tracker_create |}.

(** [int(s)] is not needed where identifiers are integers. *)
Definition no_int_of_str : Builtins := {| int_of_str := fun _ => None |}.

(** ** What idempotence asks of the remote

    The remote answers a lookup with the issue of that number, keeps what
    [edit] and [create_issue] are sent, gives a new issue no body, no
    assignees and no labels unless told otherwise, and leaves every other
    issue alone. *)
Class RemoteLaws (R : Remote) : Prop := {
  get_issue_number : forall r n g,
    get_issue r n = inr g -> gh_number g = n;
  edit_get : forall r r' g p,
    get_issue r (gh_number g) = inr g -> edit r g p = inr r' ->
    exists g', get_issue r' (gh_number g) = inr g' /\
      forall k, k ∈ remote_fields ->
        getattr (from_github g') k
        = default (getattr (from_github g) k) (dict_get k p);
  edit_frame : forall r r' g p n,
    edit r g p = inr r' -> n <> gh_number g -> get_issue r' n = get_issue r n;
  create_get : forall r r' g p,
    create_issue r p = inr (r', g) ->
    get_issue r' (gh_number g) = inr g /\
    (forall k v, k ∈ remote_fields -> dict_get k p = Some v ->
       getattr (from_github g) k = v) /\
    (dict_get "body" p = None -> gh_body g = None) /\
    (dict_get "assignees" p = None -> gh_assignees g = []) /\
    (dict_get "labels" p = None -> gh_labels g = []);
  create_frame : forall r r' g p n,
    create_issue r p = inr (r', g) -> n <> gh_number g ->
    get_issue r' n = get_issue r n
}.

(** ** Strings that differ only in line-ending style *)

(** [eol_variant a b]: [b] is [a] with some of its line endings switched
    between the one-character and the two-character form. *)
Inductive eol_variant : string -> string -> Prop :=
  | ev_nil : eol_variant EmptyString EmptyString
  | ev_char c a b :
      eol_variant a b -> eol_variant (String c a) (String c b)
  | ev_crlf_lf a b :
      eol_variant a b -> eol_variant (String CR (String LF a)) (String LF b)
  | ev_lf_crlf a b :
      eol_variant a b -> eol_variant (String LF a) (String CR (String LF b)).

(** A carriage return directly in front of a two-character line ending. *)
Fixpoint has_cr_crlf (s : string) : bool :=
  match s with
  | EmptyString => false
  | String c s' =>
      String.prefix (String CR (String CR (String LF EmptyString))) s
      || has_cr_crlf s'
  end.

Definition is_str (v : value) : bool :=
  match v with VStr _ => true | _ => false end.

(** The test [update] makes on one pair of the keyword dictionary, against
    the value [self] holds: a field name whose value differs under
    [comp_newline]. *)
Definition changed (self : Issue) (kv : string * value) : bool :=
  is_field (fst kv) && negb (comp_newline (getattr self (fst kv)) (snd kv)).

(** The lines that describe an update, and a creation. *)
Definition update_lines (e : Issue) : list message :=
  [EchoUpdating (number e); EchoChanges; EchoDump (_dirty_dict e); EchoBlank].

Definition create_lines (new_issue : Issue) : list message :=
  [EchoAdding; EchoDumpStyled (to_dict_yaml new_issue true); EchoBlank].

(** ** The loop body as a relation

    [push_one_spec dry issue s s' res]: every way the loop body can run on
    [issue] from the state [s], one constructor per path through lines
    266-306, with the state [s'] and the result [res] it ends in. *)
Section StepRelation.

Context `{R : Remote} `{B : Builtins}.

Inductive push_one_spec (dry : bool) (issue : dict) (s : pstate)
  : pstate -> exn + dict -> Prop :=
  | step_bad_number num e :
      dict_get "number" issue = Some num -> py_int num = inl e ->
      push_one_spec dry issue s s (inl e)
  | step_lookup_fails num n e :
      dict_get "number" issue = Some num -> py_int num = inr n ->
      get_issue (st_repo s) n = inl e ->
      push_one_spec dry issue s
        (mkState (st_repo s) (st_calls s ++ [CallGetIssue n]) (st_out s)
                 (new_issues_added s))
        (inl e)
  | step_bad_keyword num n g v :
      dict_get "number" issue = Some num -> py_int num = inr n ->
      get_issue (st_repo s) n = inr g ->
      dict_get "self" issue = Some v ->
      push_one_spec dry issue s
        (mkState (st_repo s) (st_calls s ++ [CallGetIssue n]) (st_out s)
                 (new_issues_added s))
        (inl TypeError)
  | step_noop num n g :
      dict_get "number" issue = Some num -> py_int num = inr n ->
      get_issue (st_repo s) n = inr g ->
      dict_get "self" issue = None ->
      dirty (update (from_github g) issue) = [] ->
      push_one_spec dry issue s
        (mkState (st_repo s) (st_calls s ++ [CallGetIssue n]) (st_out s)
                 (new_issues_added s))
        (inr issue)
  | step_update_dry num n g :
      dry = true ->
      dict_get "number" issue = Some num -> py_int num = inr n ->
      get_issue (st_repo s) n = inr g ->
      dict_get "self" issue = None ->
      dirty (update (from_github g) issue) <> [] ->
      push_one_spec dry issue s
        (mkState (st_repo s) (st_calls s ++ [CallGetIssue n])
                 (st_out s ++ update_lines (update (from_github g) issue)
                    ++ [EchoNotUpdated; EchoBlank])
                 (new_issues_added s))
        (inr issue)
  | step_update_fails num n g e :
      dry = false ->
      dict_get "number" issue = Some num -> py_int num = inr n ->
      get_issue (st_repo s) n = inr g ->
      dict_get "self" issue = None ->
      dirty (update (from_github g) issue) <> [] ->
      edit (st_repo s) g (_dirty_dict (update (from_github g) issue)) = inl e ->
      push_one_spec dry issue s
        (mkState (st_repo s)
                 (st_calls s ++ [CallGetIssue n;
                    CallEdit (gh_number g)
                             (_dirty_dict (update (from_github g) issue))])
                 (st_out s ++ update_lines (update (from_github g) issue))
                 (new_issues_added s))
        (inl e)
  | step_update num n g r' :
      dry = false ->
      dict_get "number" issue = Some num -> py_int num = inr n ->
      get_issue (st_repo s) n = inr g ->
      dict_get "self" issue = None ->
      dirty (update (from_github g) issue) <> [] ->
      edit (st_repo s) g (_dirty_dict (update (from_github g) issue)) = inr r' ->
      push_one_spec dry issue s
        (mkState r'
                 (st_calls s ++ [CallGetIssue n;
                    CallEdit (gh_number g)
                             (_dirty_dict (update (from_github g) issue))])
                 (st_out s ++ update_lines (update (from_github g) issue)
                    ++ [EchoUpdated; EchoBlank])
                 (new_issues_added s))
        (inr issue)
  | step_bad_key e :
      dict_get "number" issue = None -> Issue_init issue = inl e ->
      push_one_spec dry issue s s (inl e)
  | step_no_title new_issue :
      dict_get "number" issue = None -> Issue_init issue = inr new_issue ->
      title new_issue = VNone ->
      push_one_spec dry issue s s
        (inl (UsageError "All issues must have a title."))
  | step_create_dry new_issue :
      dry = true ->
      dict_get "number" issue = None -> Issue_init issue = inr new_issue ->
      title new_issue <> VNone ->
      push_one_spec dry issue s
        (mkState (st_repo s) (st_calls s)
                 (st_out s ++ create_lines new_issue ++ [EchoNotAdded; EchoBlank])
                 (new_issues_added s))
        (inr issue)
  | step_create_fails new_issue e :
      dry = false ->
      dict_get "number" issue = None -> Issue_init issue = inr new_issue ->
      title new_issue <> VNone ->
      create_issue (st_repo s) (to_dict new_issue true) = inl e ->
      push_one_spec dry issue s
        (mkState (st_repo s)
                 (st_calls s ++ [CallCreateIssue (to_dict new_issue true)])
                 (st_out s ++ create_lines new_issue)
                 (new_issues_added s))
        (inl e)
  | step_create new_issue r' g :
      dry = false ->
      dict_get "number" issue = None -> Issue_init issue = inr new_issue ->
      title new_issue <> VNone ->
      create_issue (st_repo s) (to_dict new_issue true) = inr (r', g) ->
      push_one_spec dry issue s
        (mkState r'
                 (st_calls s ++ [CallCreateIssue (to_dict new_issue true)])
                 (st_out s ++ create_lines new_issue
                    ++ [EchoAdded (gh_number g); EchoBlank])
                 true)
        (inr (("number", VInt (gh_number g)) :: issue)).

End StepRelation.

(** ** Files for which a second run has nothing to do *)

(** A record as [push] can bring it in step with the remote: a mapping,
    its identifier (if any) an integer, and, when it is a creation
    candidate, no null [assignees] or [labels] (a new issue reports empty
    lists for them, which differ from [None]). *)
Definition wf_record (issue : dict) : Prop :=
  NoDup issue.*1 /\
  (forall v, dict_get "number" issue = Some v -> exists n, v = VInt n) /\
  (dict_get "number" issue = None ->
   dict_get "assignees" issue <> Some VNone /\
   dict_get "labels" issue <> Some VNone).

(** The identifiers of the records of a file, in order. *)
Definition numbers (issues : list dict) : list (option value) :=
  dict_get "number" <$> issues.

(** [synced r issue]: the record names an issue of the remote [r], has no
    key [self], and updating that issue with the record marks nothing
    dirty. *)
Definition synced `{R : Remote} (r : repo) (issue : dict) : Prop :=
  exists n g, dict_get "number" issue = Some (VInt n) /\
              get_issue r n = inr g /\
              dirty (update (from_github g) issue) = [] /\
              dict_get "self" issue = None.

(** ** Scenarios of the specification, on the tracker *)

Definition scenario_repo : gmap Z ghissue :=
  {[ 42 := mkGh 42 "Fix crash" None [] [] ]}.

Definition start (r : gmap Z ghissue) : @pstate tracker :=
  @mkState tracker r [] [] false.

Definition run_push (dry_run update_input : bool) (issues : list dict)
  (r : gmap Z ghissue) : @outcome tracker :=
  @push tracker no_int_of_str dry_run update_input issues r.

(** ** [Issue.list_to_yaml], lines 130-141, and the issue listing *)

Abbreviation styled_dict := (list (string * (yaml_style * value))).

(** An entry of the [CommentedSeq]: the mapping, and the comment set in
    front of it, if any. *)
Record yaml_item := mkItem {
  comment_before : option string;
  item_fields : styled_dict
}.

(** [Issue.list_to_yaml(issues)]: one [to_dict(yaml=True)] per issue, then
    [yaml_set_comment_before_after_key(i, before="\n")] for every [i] in
    [range(1, len(s))]. *)
Definition list_to_yaml (issues : list Issue) : list yaml_item :=
  let s := List.map (fun issue => to_dict_yaml issue false) issues in
  imap (fun i d =>
          mkItem (if bool_decide (1 <= i < List.length s)%nat
                  then Some (String LF EmptyString) else None) d) s.

(** [repo.get_issues()], read to its end by the list comprehension of
    [pull]. *)
Class Listing `{R : Remote} := { get_issues : repo -> exn + list ghissue }.

(** The mappings of a dumped sequence without their styles. *)
Definition plain (d : styled_dict) : dict :=
  List.map (fun kv => (fst kv, snd (snd kv))) d.

Definition plain_items (items : list yaml_item) : list dict :=
  List.map (fun it => plain (item_fields it)) items.

(** Two mappings with the same keys in the same order whose values are
    equal under [comp_newline]: what a file may turn a text into without
    [push] noticing. *)
Definition same_content (d d' : dict) : Prop :=
  Forall2 (fun kv kv' => fst kv = fst kv' /\ comp_newline (snd kv) (snd kv') = true)
          d d'.

(** The tracker lists its issues in the order of its map. *)
Definition tracker_list (m : gmap Z ghissue) : exn + list ghissue :=
  inr (List.map (fun ng => with_number (fst ng) (snd ng)) (map_to_list m)).

Definition tracker_listing : @Listing tracker :=
  @Build_Listing tracker tracker_list.

(** ** Notions used by the further properties *)

Fixpoint has_cr (s : string) : bool :=
  match s with
  | EmptyString => false
  | String c s' => bool_decide (c = CR) || has_cr s'
  end.

(** An [Issue] as the constructor returns it: the fields, nothing dirty. *)
Definition fresh (self : Issue) : Issue :=
  mkIssue (number self) (title self) (body self) (assignees self) (labels self) [].

Definition has_number (issue : dict) : bool :=
  bool_decide (dict_get "number" issue <> None).

(** What [push] may do to a record of the file: nothing, or put the
    assigned number in front of a record that had none. *)
Definition numbered (issue issue' : dict) : Prop :=
  issue' = issue \/
  (dict_get "number" issue = None /\ exists n, issue' = ("number", VInt n) :: issue).

Definition is_create (c : call) : bool :=
  match c with CallCreateIssue _ => true | _ => false end.

(** ** Resolving the repository: [gh], [current_repo], [resolve_repo],
    lines 144-187 *)

(** What these functions use of their environment: the [gh] command run
    through [subprocess.check_output] (its output as text; [check_output]
    raises when the command fails or, for the token, the decoding), the
    [nameWithOwner] entry of the JSON it prints, the constructor
    [github.Github(token)], and [get_repo] on the handle.  Each may raise
    (the constructor does on an empty token). *)
Class Shell `{R : Remote} := {
  check_output : string -> exn + string;
  name_with_owner : string -> exn + string;
  github : Type;
  Github : string -> exn + github;
  get_repo : github -> string -> exn + repo
}.

(** [s[:-1]]: the string without its last character; the empty string
    stays empty. *)
Fixpoint drop_last (s : string) : string :=
  match s with
  | EmptyString => EmptyString
  | String c s' =>
      match s' with
      | EmptyString => EmptyString
      | String _ _ => String c (drop_last s')
      end
  end.

Section Resolve.

Context `{S : Shell}.

(** The module-level [_gh], and the commands run so far. *)
Record gstate := mkG {
  _gh : option github;
  commands : list string
}.

Definition run_command (cmd : string) (st : gstate)
  : gstate * (exn + string) :=
  (mkG (_gh st) (commands st ++ [cmd]), check_output cmd).

(** [gh()], lines 147-157. *)
Definition gh (st : gstate) : gstate * (exn + github) :=
  match _gh st with
  | None =>
      match run_command "gh auth token" st with
      | (st1, inl e) => (st1, inl e)
      | (st1, inr out) =>
          let token := drop_last out in
          match Github token with
          | inl e => (st1, inl e)
          | inr h => (mkG (Some h) (commands st1), inr h)
          end
      end
  | Some h => (st, inr h)
  end.

(** [current_repo()], lines 160-166. *)
Definition current_repo (st : gstate) : gstate * (exn + string) :=
  match run_command "gh repo view --json nameWithOwner" st with
  | (st1, inl e) => (st1, inl e)
  | (st1, inr repo_name) => (st1, name_with_owner repo_name)
  end.

(** [resolve_repo(repo)], lines 169-187; [repo_arg] is its argument
    [repo]. *)
Definition resolve_repo (repo_arg : option string) (st : gstate)
  : gstate * (exn + repo) :=
  match (match repo_arg with
         | None => current_repo st
         | Some name => (st, inr name)
         end) with
  | (st1, inl e) => (st1, inl e)
  | (st1, inr name) =>
      match gh st1 with
      | (st2, inl e) => (st2, inl e)
      | (st2, inr h) => (st2, get_repo h name)
      end
  end.

End Resolve.

(** ** [pull], lines 207-219 *)

(** What [pull] uses of its output file: [open(output, "w")], and
    [yaml.dump] of the sequence into it.  Each may raise. *)
Class Output := {
  open_output : exn + unit;
  dump : list yaml_item -> exn + unit
}.

Section PullCommand.

Context `{S : Shell} {G : Listing} {O : Output}.

(** What a run of [pull] leaves: the state of [_gh] and the commands run,
    the exception that ended it if any, whether the output file was
    opened for writing, and the sequence dumped into it. *)
Record pull_outcome := mkPull {
  pull_state : gstate;
  pull_raised : option exn;
  output_opened : bool;
  output_dumped : option (list yaml_item)
}.

(** [pull(output, repo)]: [repo_arg] is its argument [repo]. *)
Definition pull (repo_arg : option string) (st : gstate) : pull_outcome :=
  match resolve_repo repo_arg st with
  | (st1, inl e) => mkPull st1 (Some e) false None
  | (st1, inr r) =>
      match get_issues r with
      | inl e => mkPull st1 (Some e) false None
      | inr gh_issues =>
          let issues := List.map from_github gh_issues in
          match open_output with
          | inl e => mkPull st1 (Some e) false None
          | inr _ =>
              let yaml_issue_list := list_to_yaml issues in
              match dump yaml_issue_list with
              | inl e => mkPull st1 (Some e) true None
              | inr _ => mkPull st1 None true (Some yaml_issue_list)
              end
          end
      end
  end.

End PullCommand.

(** ** Instances for the examples *)

(** An output file that opens and takes the dump. *)
Definition demo_output : Output :=
  {| open_output := inr tt; dump := fun _ => inr tt |}.

(** [int] on the one string the examples use. *)
Definition int_of_42 : Builtins :=
  {| int_of_str := fun s => if bool_decide (s = "42") then Some 42 else None |}.

(** A shell in which [gh] answers a token followed by a newline and the
    name of this repository, over the tracker of the scenarios. *)
Definition demo_shell : @Shell tracker :=
  {| check_output := fun cmd =>
       if bool_decide (cmd = "gh auth token")
       then inr (String "t" (String "o" (String "k" (String LF EmptyString))))
       else inr "{}";
     name_with_owner := fun _ => inr "jrs65/gh-sync-issues";
     github := string;
     Github := fun token =>
       if bool_decide (token = "") then inl AssertionError else inr token;
     get_repo := fun _ _ => inr (scenario_repo : @repo tracker) |}.

(** * Properties *)

(** ** [comp_newline] *)

Lemma py_eq_refl v : py_eq v v = true.
Proof. unfold py_eq. by apply bool_decide_eq_true. Qed.

Lemma comp_newline_refl v : comp_newline v v = true.
Proof. apply py_eq_refl. Qed.

Lemma replace_crlf_cons c s :
  replace_crlf (String c s) =
  match s with
  | String c' s' =>
      if bool_decide (c = CR) && bool_decide (c' = LF)
      then String LF (replace_crlf s') else String c (replace_crlf s)
  | EmptyString => String c EmptyString
  end.
Proof. by destruct s. Qed.

Lemma replace_crlf_other c s :
  c <> CR -> replace_crlf (String c s) = String c (replace_crlf s).
Proof.
  intros Hc. rewrite replace_crlf_cons. destruct s as [|c' s']; [done|].
  by rewrite (bool_decide_eq_false_2 _ Hc).
Qed.

Lemma replace_crlf_crlf s :
  replace_crlf (String CR (String LF s)) = String LF (replace_crlf s).
Proof. done. Qed.

Lemma has_cr_crlf_tail c s : has_cr_crlf (String c s) = false -> has_cr_crlf s = false.
Proof. cbn [has_cr_crlf]. intros H. by apply orb_false_iff in H as [_ H]. Qed.

Lemma has_cr_crlf_head s : has_cr_crlf (String CR (String CR (String LF s))) = true.
Proof. cbn. by destruct s. Qed.

Lemma eol_variant_replace a b :
  eol_variant a b -> has_cr_crlf a = false -> has_cr_crlf b = false ->
  replace_crlf a = replace_crlf b.
Proof.
  induction 1 as [|c a b Hab IH|a b Hab IH|a b Hab IH]; intros Ha Hb.
  - done.
  - pose proof (has_cr_crlf_tail _ _ Ha) as Ha'.
    pose proof (has_cr_crlf_tail _ _ Hb) as Hb'.
    specialize (IH Ha' Hb').
    destruct (decide (c = CR)) as [->|Hc];
      [|by rewrite !replace_crlf_other, IH].
    inversion Hab as [|c' a' b' Hab'|a' b' Hab'|a' b' Hab']; subst.
    + done.
    + destruct (decide (c' = LF)) as [->|Hc'].
      * rewrite !replace_crlf_crlf.
        rewrite !(replace_crlf_other LF) in IH by done. congruence.
      * rewrite !(replace_crlf_cons CR (String c' _)).
        rewrite (bool_decide_eq_false_2 _ Hc'), andb_false_r. by rewrite IH.
    + by rewrite has_cr_crlf_head in Ha.
    + by rewrite has_cr_crlf_head in Hb.
  - rewrite replace_crlf_crlf, (replace_crlf_other LF) by done.
    f_equal. apply IH.
    + eapply has_cr_crlf_tail, has_cr_crlf_tail, Ha.
    + eapply has_cr_crlf_tail, Hb.
  - rewrite replace_crlf_crlf, (replace_crlf_other LF) by done.
    f_equal. apply IH.
    + eapply has_cr_crlf_tail, Ha.
    + eapply has_cr_crlf_tail, has_cr_crlf_tail, Hb.
Qed.

Lemma comp_newline_not_str a b :
  is_str a = false \/ is_str b = false -> comp_newline a b = py_eq a b.
Proof.
  unfold comp_newline, py_eq.
  intros [H|H]; destruct a, b; try done; simpl;
    by rewrite !bool_decide_eq_false_2.
Qed.

(** C5 (as amended).  Two strings that differ only in line-ending style,
    neither containing a carriage return directly in front of a
    two-character line ending, compare equal; when an input is not a
    string the comparison is plain equality.  [comp_newline] is a function
    of its two arguments alone: the source rebinds its local names and
    touches nothing else. *)
Theorem comp_newline_line_endings :
  (forall a b : string,
     eol_variant a b -> has_cr_crlf a = false -> has_cr_crlf b = false ->
     comp_newline (VStr a) (VStr b) = true) /\
  (forall a b : value,
     is_str a = false \/ is_str b = false -> comp_newline a b = py_eq a b).
Proof.
  split.
  - intros a b Hab Ha Hb. unfold comp_newline. simpl.
    rewrite (eol_variant_replace a b Hab Ha Hb). apply py_eq_refl.
  - apply comp_newline_not_str.
Qed.

Lemma comp_newline_line_endings_witness :
  comp_newline (VStr (String "a" (String CR (String LF "b"))))
               (VStr (String "a" (String LF "b"))) = true
  /\ comp_newline (VInt 3) (VList []) = py_eq (VInt 3) (VList []).
Proof.
  split.
  - apply (proj1 comp_newline_line_endings).
    + apply ev_char, ev_crlf_lf, ev_char, ev_nil.
    + reflexivity.
    + reflexivity.
  - apply (proj2 comp_newline_line_endings). left. reflexivity.
Defined.

(** C5, the claim as stated fails: a carriage return followed by a
    two-character line ending, against the same text with the
    one-character ending.  One pass turns the first into the second and
    the second into a bare line feed. *)
Lemma comp_newline_stray_cr :
  eol_variant (String CR (String CR (String LF EmptyString)))
              (String CR (String LF EmptyString))
  /\ comp_newline (VStr (String CR (String CR (String LF EmptyString))))
                  (VStr (String CR (String LF EmptyString))) = false.
Proof. split; [apply ev_char, ev_crlf_lf, ev_nil | reflexivity]. Qed.

(** ** [Issue.update] and the dirty list *)

Lemma is_field_true k : is_field k = true <-> k ∈ field_names.
Proof. unfold is_field. apply bool_decide_eq_true. Qed.

Lemma is_field_cases k :
  is_field k = true ->
  k = "number" \/ k = "title" \/ k = "body" \/ k = "assignees" \/ k = "labels".
Proof.
  rewrite is_field_true. unfold field_names.
  rewrite !elem_of_cons, elem_of_nil. tauto.
Qed.

Lemma getattr_setattr_eq self k v :
  is_field k = true -> getattr (setattr self k v) k = v.
Proof.
  intros Hk. destruct (is_field_cases k Hk) as [->|[->|[->|[->| ->]]]]; done.
Qed.

Lemma getattr_setattr_ne self k k' v :
  k <> k' -> getattr (setattr self k v) k' = getattr self k'.
Proof.
  intros Hne. unfold setattr.
  repeat (case_bool_decide; [subst k; unfold getattr; simpl;
    repeat (case_bool_decide; [try congruence; subst k'; try done|]); done|]).
  done.
Qed.

Lemma getattr_dirty_append self k k' :
  getattr (dirty_append self k) k' = getattr self k'.
Proof. done. Qed.

Lemma dirty_setattr self k v : dirty (setattr self k v) = dirty self.
Proof. unfold setattr. by repeat case_bool_decide. Qed.

(** Whether [update] finds the pair [kv] changed against [self]. *)
Lemma update_cons self k v rest :
  update self ((k, v) :: rest) =
  if is_field k && negb (comp_newline (getattr self k) v)
  then update (dirty_append (setattr self k v) k) rest
  else update self rest.
Proof. simpl. destruct (is_field k); [|done]. simpl. by destruct (comp_newline _ _). Qed.

Lemma elem_of_List_filter {A} (f : A -> bool) (l : list A) (x : A) :
  x ∈ List.filter f l <-> x ∈ l /\ f x = true.
Proof. rewrite !list_elem_of_In. apply filter_In. Qed.

Lemma changed_frame self k v kv :
  fst kv <> k -> changed (dirty_append (setattr self k v) k) kv = changed self kv.
Proof.
  intros Hne. unfold changed.
  by rewrite getattr_dirty_append, getattr_setattr_ne.
Qed.

Lemma filter_changed_frame self k v (rest : dict) :
  k ∉ rest.*1 ->
  List.filter (changed (dirty_append (setattr self k v) k)) rest
  = List.filter (changed self) rest.
Proof.
  intros Hk. apply filter_ext_in. intros kv Hkv. apply changed_frame.
  intros <-. apply Hk. apply list_elem_of_fmap. exists kv. split; [done|].
  by apply list_elem_of_In.
Qed.

(** With pairwise distinct keys, the names appended by one [update] are
    those of the changed pairs, in the order of the dictionary. *)
Lemma dirty_update self (kwargs : dict) :
  NoDup kwargs.*1 ->
  dirty (update self kwargs) = dirty self ++ (List.filter (changed self) kwargs).*1.
Proof.
  revert self. induction kwargs as [|[k v] rest IH]; intros self Hnd.
  - simpl. by rewrite app_nil_r.
  - apply NoDup_cons in Hnd as [Hk Hnd]. rewrite update_cons.
    cbn [List.filter]. change (changed self (k, v)) with
      (is_field k && negb (comp_newline (getattr self k) v)).
    destruct (is_field k && negb (comp_newline (getattr self k) v)).
    + rewrite IH by done. rewrite filter_changed_frame by done.
      simpl. rewrite dirty_setattr. by rewrite <- app_assoc.
    + by apply IH.
Qed.

Lemma dict_get_Some_elem k v (d : dict) : dict_get k d = Some v -> (k, v) ∈ d.
Proof.
  induction d as [|[k' v'] d IH]; [done|]. simpl. case_bool_decide.
  - intros [= ->]. subst. apply list_elem_of_here.
  - intros H'. apply list_elem_of_further. by apply IH.
Qed.

Lemma dict_get_None k (d : dict) : dict_get k d = None <-> k ∉ d.*1.
Proof.
  induction d as [|[k' v'] d IH]; simpl.
  - split; [intros _; apply not_elem_of_nil | done].
  - rewrite not_elem_of_cons. case_bool_decide as Hk.
    + split; [done|]. intros [? _]. by subst.
    + rewrite IH. split; [|tauto]. intros ?. split; [congruence|done].
Qed.

Lemma elem_dict_get k v (d : dict) :
  NoDup d.*1 -> (k, v) ∈ d -> dict_get k d = Some v.
Proof.
  induction d as [|[k' v'] d IH]; intros Hnd Hin.
  - by apply elem_of_nil in Hin.
  - apply NoDup_cons in Hnd as [Hk Hnd]. simpl.
    apply elem_of_cons in Hin as [[= -> ->]|Hin].
    + by rewrite bool_decide_eq_true_2.
    + case_bool_decide; [|by apply IH]. subst. exfalso. apply Hk.
      apply list_elem_of_fmap. by exists (k, v).
Qed.

(** What a field holds after one [update] with pairwise distinct keys. *)
Lemma getattr_update self (kwargs : dict) k :
  NoDup kwargs.*1 ->
  getattr (update self kwargs) k =
  match dict_get k kwargs with
  | Some v => if changed self (k, v) then v else getattr self k
  | None => getattr self k
  end.
Proof.
  revert self. induction kwargs as [|[k' v'] rest IH]; intros self Hnd; [done|].
  apply NoDup_cons in Hnd as [Hk Hnd]. simpl in Hk.
  rewrite update_cons. simpl dict_get.
  case_bool_decide as Hkk.
  - subst k'. apply dict_get_None in Hk as Hk'.
    unfold changed. simpl fst. simpl snd.
    destruct (is_field k && negb (comp_newline (getattr self k) v')) eqn:Hc.
    + rewrite IH, Hk' by done. rewrite getattr_dirty_append.
      apply getattr_setattr_eq. by apply andb_true_iff in Hc as [? _].
    + by rewrite IH, Hk'.
  - destruct (is_field k' && negb (comp_newline (getattr self k') v')).
    + rewrite IH by done. destruct (dict_get k rest) as [v|].
      * rewrite changed_frame by (simpl; congruence).
        by rewrite getattr_dirty_append, getattr_setattr_ne.
      * by rewrite getattr_dirty_append, getattr_setattr_ne.
    + by apply IH.
Qed.

(** C3.  A tracker seeded with [r] (its dirty list empty) and updated once
    with a mapping [f]: the dirty names are exactly the field names whose
    value in [f] differs from the value of [r] under [comp_newline]; when
    no value differs, the dirty list is empty. *)
Theorem update_dirty_exact (r : Issue) (f : dict) :
  dirty r = [] -> NoDup f.*1 ->
  (forall k, k ∈ dirty (update r f) <->
     is_field k = true /\
     exists v, (k, v) ∈ f /\ comp_newline (getattr r k) v = false) /\
  ((forall k v, (k, v) ∈ f -> is_field k = true ->
      comp_newline (getattr r k) v = true) ->
   dirty (update r f) = []).
Proof.
  intros Hr Hnd. rewrite dirty_update, Hr by done. simpl. split.
  - intros k. rewrite list_elem_of_fmap. split.
    + intros [[k' v] [-> Hin]]. apply elem_of_List_filter in Hin as [Hin Hc].
      unfold changed in Hc. simpl in *. apply andb_true_iff in Hc as [Hf Hc].
      split; [done|]. exists v. split; [done|]. by apply negb_true_iff.
    + intros [Hf [v [Hin Hc]]]. exists (k, v). split; [done|].
      apply elem_of_List_filter. split; [done|]. unfold changed. simpl.
      by rewrite Hf, Hc.
  - intros Hsame. replace (List.filter (changed r) f) with (@nil (string * value)); [done|].
    symmetry. induction f as [|[k v] f IH]; [done|].
    apply NoDup_cons in Hnd as [_ Hnd]. simpl. unfold changed at 1. simpl.
    destruct (is_field k) eqn:Hf; simpl.
    + rewrite (Hsame k v) by (done || apply list_elem_of_here). simpl.
      apply IH; [done|]. intros k' v' Hin. apply Hsame. by apply list_elem_of_further.
    + apply IH; [done|]. intros k' v' Hin. apply Hsame. by apply list_elem_of_further.
Qed.

Lemma update_dirty_exact_witness :
  dirty (update (from_github (mkGh 42 "Fix crash" None [] []))
                [("number", VInt 42); ("title", VStr "Fix crash!!")]) = ["title"]
  /\ dirty (update (from_github (mkGh 42 "Fix crash" None [] []))
                   [("number", VInt 42); ("title", VStr "Fix crash")]) = [].
Proof.
  split; [reflexivity|].
  apply update_dirty_exact; [reflexivity | by apply (bool_decide_unpack _) |].
  intros k v Hin _.
  apply elem_of_cons in Hin as [[= -> ->]|Hin]; [reflexivity|].
  apply elem_of_cons in Hin as [[= -> ->]|Hin]; [reflexivity|].
  by apply elem_of_nil in Hin.
Defined.

Lemma asdict_elem self k v :
  (k, v) ∈ asdict self <-> k ∈ field_names /\ v = getattr self k.
Proof.
  unfold asdict. rewrite !list_elem_of_In, in_map_iff. split.
  - by intros [k' [[= -> ->] Hk]].
  - intros [Hk ->]. by exists k.
Qed.

Lemma dirty_dict_elem self k v :
  (k, v) ∈ _dirty_dict self <-> is_field k = true /\ k ∈ dirty self /\ v = getattr self k.
Proof.
  unfold _dirty_dict, to_dict. rewrite elem_of_List_filter, asdict_elem.
  cbn [fst]. rewrite bool_decide_eq_true, is_field_true. tauto.
Qed.

(** C4 (as amended).  [dirty] is a list and [update] appends to it.  One
    [update] of a freshly seeded tracker with a mapping appends each name
    at most once.  A later [update] that changes the field again appends
    its name again; the repeated name changes neither what [_dirty_dict]
    returns nor whether the list is empty. *)
Theorem dirty_marks :
  (forall (r : Issue) (f : dict),
     dirty r = [] -> NoDup f.*1 -> NoDup (dirty (update r f))) /\
  (forall (self : Issue) (k : string),
     k ∈ dirty self ->
     _dirty_dict (dirty_append self k) = _dirty_dict self /\
     dirty (dirty_append self k) <> []).
Proof.
  split.
  - intros r f Hr Hnd. rewrite dirty_update, Hr by done. simpl.
    clear Hr. induction f as [|[k v] f IH]; [constructor|].
    apply NoDup_cons in Hnd as [Hk Hnd]. simpl in Hk. simpl.
    destruct (changed r (k, v)); [|by apply IH].
    simpl. apply NoDup_cons. split; [|by apply IH].
    intros Hin. apply Hk. apply list_elem_of_fmap in Hin as [kv [-> Hin]].
    apply elem_of_List_filter in Hin as [Hin _].
    apply list_elem_of_fmap. by exists kv.
  - intros self k Hk. split.
    + unfold _dirty_dict. apply filter_ext. intros [k' v']. simpl.
      apply bool_decide_ext. rewrite elem_of_app, list_elem_of_singleton.
      split; [|tauto]. intros [?| ->]; done.
    + simpl. by destruct (dirty self).
Qed.

Lemma dirty_marks_witness :
  NoDup (dirty (update (from_github (mkGh 42 "x" None [] []))
                       [("title", VStr "a"); ("body", VStr "b")]))
  /\ _dirty_dict (dirty_append
        (update (from_github (mkGh 42 "x" None [] [])) [("title", VStr "a")]) "title")
     = _dirty_dict (update (from_github (mkGh 42 "x" None [] [])) [("title", VStr "a")]).
Proof.
  split.
  - apply dirty_marks; [reflexivity | by apply (bool_decide_unpack _)].
  - apply dirty_marks. simpl. apply list_elem_of_here.
Defined.

(** C4, the claim as stated fails: two [update] calls on one tracker that
    both change the title leave the name twice in the dirty list. *)
Lemma dirty_marked_twice :
  dirty (update (update (from_github (mkGh 42 "x" None [] []))
                        [("title", VStr "a")])
                [("title", VStr "b")])
  = ["title"; "title"].
Proof. reflexivity. Qed.

(** ** One record of [push] *)

(** Unfolds the loop body down to the state it returns. *)
Ltac run_step :=
  unfold push_one; unfold do_get_issue, do_edit, do_create_issue;
  unfold bind, lift, log_call, set_repo, set_new_issues_added, echo, raise, ret;
  simpl.

Section PushOne.

Context `{R : Remote} `{B : Builtins}.

Implicit Types (s : pstate) (issue : dict).

Lemma push_one_bad_number dry issue s num e :
  dict_get "number" issue = Some num -> py_int num = inl e ->
  push_one dry issue s = (s, inl e).
Proof. intros Hn Hi. run_step. by rewrite Hn, Hi. Qed.

Lemma push_one_lookup_fails dry issue s num n e :
  dict_get "number" issue = Some num -> py_int num = inr n ->
  get_issue (st_repo s) n = inl e ->
  push_one dry issue s
  = (mkState (st_repo s) (st_calls s ++ [CallGetIssue n]) (st_out s)
             (new_issues_added s), inl e).
Proof. intros Hn Hi Hg. run_step. rewrite Hn, Hi. simpl. by rewrite Hg. Qed.

Lemma push_one_bad_keyword dry issue s num n g v :
  dict_get "number" issue = Some num -> py_int num = inr n ->
  get_issue (st_repo s) n = inr g ->
  dict_get "self" issue = Some v ->
  push_one dry issue s
  = (mkState (st_repo s) (st_calls s ++ [CallGetIssue n]) (st_out s)
             (new_issues_added s), inl TypeError).
Proof.
  intros Hn Hi Hg Hs. run_step. rewrite Hn, Hi. simpl. rewrite Hg. simpl.
  unfold call_update. by rewrite Hs.
Qed.

Lemma push_one_noop dry issue s num n g :
  dict_get "number" issue = Some num -> py_int num = inr n ->
  get_issue (st_repo s) n = inr g ->
  dict_get "self" issue = None ->
  dirty (update (from_github g) issue) = [] ->
  push_one dry issue s
  = (mkState (st_repo s) (st_calls s ++ [CallGetIssue n]) (st_out s)
             (new_issues_added s), inr issue).
Proof.
  intros Hn Hi Hg Hs Hd. run_step. rewrite Hn, Hi. simpl. rewrite Hg. simpl.
  unfold call_update. rewrite Hs. simpl. by rewrite Hd.
Qed.

Lemma push_one_update_dry issue s num n g :
  dict_get "number" issue = Some num -> py_int num = inr n ->
  get_issue (st_repo s) n = inr g ->
  dict_get "self" issue = None ->
  dirty (update (from_github g) issue) <> [] ->
  push_one true issue s
  = (mkState (st_repo s) (st_calls s ++ [CallGetIssue n])
             (st_out s ++ update_lines (update (from_github g) issue)
                ++ [EchoNotUpdated; EchoBlank])
             (new_issues_added s), inr issue).
Proof.
  intros Hn Hi Hg Hs Hd. run_step. rewrite Hn, Hi. simpl. rewrite Hg. simpl.
  unfold call_update. rewrite Hs. simpl.
  rewrite bool_decide_eq_false_2 by done. simpl.
  rewrite <- !app_assoc. reflexivity.
Qed.

Lemma push_one_update issue s num n g :
  dict_get "number" issue = Some num -> py_int num = inr n ->
  get_issue (st_repo s) n = inr g ->
  dict_get "self" issue = None ->
  dirty (update (from_github g) issue) <> [] ->
  let e := update (from_github g) issue in
  let calls := st_calls s ++ [CallGetIssue n; CallEdit (gh_number g) (_dirty_dict e)] in
  push_one false issue s
  = match edit (st_repo s) g (_dirty_dict e) with
    | inl err =>
        (mkState (st_repo s) calls (st_out s ++ update_lines e)
                 (new_issues_added s), inl err)
    | inr r' =>
        (mkState r' calls
                 (st_out s ++ update_lines e ++ [EchoUpdated; EchoBlank])
                 (new_issues_added s), inr issue)
    end.
Proof.
  intros Hn Hi Hg Hs Hd. run_step. rewrite Hn, Hi. simpl. rewrite Hg. simpl.
  unfold call_update. rewrite Hs. simpl.
  rewrite bool_decide_eq_false_2 by done. simpl.
  destruct (edit _ _ _); simpl; rewrite <- !app_assoc; reflexivity.
Qed.

Lemma push_one_bad_key dry issue s e :
  dict_get "number" issue = None -> Issue_init issue = inl e ->
  push_one dry issue s = (s, inl e).
Proof. intros Hn Hi. run_step. by rewrite Hn, Hi. Qed.

Lemma push_one_no_title dry issue s new_issue :
  dict_get "number" issue = None -> Issue_init issue = inr new_issue ->
  title new_issue = VNone ->
  push_one dry issue s = (s, inl (UsageError "All issues must have a title.")).
Proof. intros Hn Hi Ht. run_step. rewrite Hn, Hi. simpl. by rewrite Ht. Qed.

Lemma push_one_create_dry issue s new_issue :
  dict_get "number" issue = None -> Issue_init issue = inr new_issue ->
  title new_issue <> VNone ->
  push_one true issue s
  = (mkState (st_repo s) (st_calls s)
             (st_out s ++ create_lines new_issue ++ [EchoNotAdded; EchoBlank])
             (new_issues_added s), inr issue).
Proof.
  intros Hn Hi Ht. run_step. rewrite Hn, Hi. simpl.
  rewrite bool_decide_eq_false_2 by done. simpl. rewrite <- !app_assoc; reflexivity.
Qed.

Lemma push_one_create issue s new_issue :
  dict_get "number" issue = None -> Issue_init issue = inr new_issue ->
  title new_issue <> VNone ->
  let payload := to_dict new_issue true in
  push_one false issue s
  = match create_issue (st_repo s) payload with
    | inl err =>
        (mkState (st_repo s) (st_calls s ++ [CallCreateIssue payload])
                 (st_out s ++ create_lines new_issue)
                 (new_issues_added s), inl err)
    | inr (r', g) =>
        (mkState r' (st_calls s ++ [CallCreateIssue payload])
                 (st_out s ++ create_lines new_issue
                    ++ [EchoAdded (gh_number g); EchoBlank])
                 true, inr (("number", VInt (gh_number g)) :: issue))
    end.
Proof.
  intros Hn Hi Ht. run_step. rewrite Hn, Hi. simpl.
  rewrite bool_decide_eq_false_2 by done. simpl.
  destruct (create_issue _ _) as [err|[r' g]]; simpl; rewrite <- !app_assoc; reflexivity.
Qed.

End PushOne.

(** ** Helper facts on the dirty list and on the constructor *)

Lemma dirty_update_elem r (f : dict) k :
  dirty r = [] -> NoDup f.*1 ->
  k ∈ dirty (update r f) <-> exists v, (k, v) ∈ f /\ changed r (k, v) = true.
Proof.
  intros Hr Hnd. rewrite dirty_update, Hr by done. simpl.
  rewrite list_elem_of_fmap. split.
  - intros [[k' v] [-> Hin]]. apply elem_of_List_filter in Hin. by exists v.
  - intros [v Hin]. exists (k, v). split; [done|]. by apply elem_of_List_filter.
Qed.

Lemma dirty_update_fields r (f : dict) k :
  k ∈ dirty (update r f) -> k ∈ dirty r \/ is_field k = true.
Proof.
  revert r. induction f as [|[k' v'] f IH]; intros r; [by left|].
  rewrite update_cons.
  destruct (is_field k' && negb (comp_newline (getattr r k') v')) eqn:Hc; [|apply IH].
  intros Hin. apply IH in Hin as [Hin|Hin]; [|by right].
  simpl in Hin. rewrite dirty_setattr in Hin.
  apply elem_of_app in Hin as [Hin|Hin]; [by left|].
  apply list_elem_of_singleton in Hin as ->. right.
  by apply andb_true_iff in Hc as [? _].
Qed.

Lemma changed_true r k v :
  changed r (k, v) = true <->
  is_field k = true /\ comp_newline (getattr r k) v = false.
Proof. unfold changed. simpl. by rewrite andb_true_iff, negb_true_iff. Qed.

Lemma Issue_init_inr (kwargs : dict) new_issue :
  Issue_init kwargs = inr new_issue ->
  (forall k v, (k, v) ∈ kwargs -> is_field k = true) /\
  (forall k, is_field k = true -> getattr new_issue k = dict_default k kwargs) /\
  dirty new_issue = [].
Proof.
  unfold Issue_init. destruct (forallb _ _) eqn:Hall; [|done]. intros [= <-].
  split; [|split; [|done]].
  - intros k v Hin. rewrite forallb_forall in Hall.
    by apply (Hall (k, v)), list_elem_of_In.
  - intros k Hk. by destruct (is_field_cases k Hk) as [->|[->|[->|[->| ->]]]].
Qed.

Lemma Issue_init_inl (kwargs : dict) k v :
  (k, v) ∈ kwargs -> is_field k = false -> Issue_init kwargs = inl TypeError.
Proof.
  intros Hin Hk. unfold Issue_init. destruct (forallb _ _) eqn:Hall; [|done].
  rewrite forallb_forall in Hall. apply list_elem_of_In, Hall in Hin.
  simpl in Hin. congruence.
Qed.

Lemma to_dict_skip_elem self k v :
  (k, v) ∈ to_dict self true <->
  is_field k = true /\ v = getattr self k /\ v <> VNone.
Proof.
  unfold to_dict. rewrite elem_of_List_filter, asdict_elem, is_field_true.
  simpl. destruct v; simpl; intuition congruence.
Qed.

Lemma dict_default_elem k v (d : dict) :
  NoDup d.*1 -> v <> VNone -> dict_default k d = v <-> (k, v) ∈ d.
Proof.
  intros Hnd Hv. unfold dict_default. split.
  - destruct (dict_get k d) as [v'|] eqn:Hg; simpl; [|congruence].
    intros <-. by apply dict_get_Some_elem.
  - intros Hin. by rewrite (elem_dict_get _ _ _ Hnd Hin).
Qed.

(** ** Update path and creation path of one record *)

Lemma call_update_inr self (kwargs : dict) e :
  call_update self kwargs = inr e ->
  dict_get "self" kwargs = None /\ e = update self kwargs.
Proof.
  unfold call_update. destruct (dict_get "self" kwargs); [done|].
  by intros [= <-].
Qed.

Section Reconcile.

Context `{R : Remote} `{B : Builtins}.

Implicit Types (s : pstate) (issue : dict).

(** C6.  An update-path record for which the call of [update] returns
    with an empty dirty list: the record is skipped.  The lookup
    [get_issue] that the comparison needs is the only call; no [edit] and
    no [create_issue] is made, nothing is echoed, and the remote, the
    record and the flag [new_issues_added] are unchanged, in a dry run or
    not. *)
Theorem clean_record_is_skipped dry issue s num n g e :
  dict_get "number" issue = Some num -> py_int num = inr n ->
  get_issue (st_repo s) n = inr g ->
  call_update (from_github g) issue = inr e -> dirty e = [] ->
  push_one dry issue s
  = (mkState (st_repo s) (st_calls s ++ [CallGetIssue n]) (st_out s)
             (new_issues_added s), inr issue)
  /\ List.filter is_mutation (st_calls (fst (push_one dry issue s)))
     = List.filter is_mutation (st_calls s).
Proof.
  intros Hn Hi Hg Hu Hd. apply call_update_inr in Hu as [Hs ->].
  rewrite (push_one_noop dry issue s num n g) by done.
  split; [done|]. simpl. rewrite List.filter_app. simpl. by rewrite app_nil_r.
Qed.

(** C7.  An update-path record for which the call of [update] returns
    with a non-empty dirty list, not in a dry run: one [edit] call is
    made, with [_dirty_dict] as payload.  The keys
    of the payload are exactly the dirty names, each with the value the
    tracker now holds; for a mapping, each pair of the payload is a pair of
    the record whose value differs from the remote one, so no unchanged
    field is sent. *)
Theorem update_sends_dirty_fields issue s num n g e :
  dict_get "number" issue = Some num -> py_int num = inr n ->
  get_issue (st_repo s) n = inr g ->
  call_update (from_github g) issue = inr e -> dirty e <> [] ->
  st_calls (fst (push_one false issue s))
  = st_calls s ++ [CallGetIssue n; CallEdit (gh_number g) (_dirty_dict e)]
  /\ (forall k, k ∈ (_dirty_dict e).*1 <-> k ∈ dirty e)
  /\ (forall k v, (k, v) ∈ _dirty_dict e -> v = getattr e k)
  /\ (NoDup issue.*1 ->
      forall k v, (k, v) ∈ _dirty_dict e ->
        (k, v) ∈ issue /\ comp_newline (getattr (from_github g) k) v = false).
Proof.
  intros Hn Hi Hg Hu Hd. apply call_update_inr in Hu as [Hs ->].
  set (e := update (from_github g) issue) in *.
  split; [|split; [|split]].
  - rewrite (push_one_update issue s num n g) by done.
    fold e. by destruct (edit _ _ _).
  - intros k. rewrite list_elem_of_fmap. split.
    + intros [[k' v] [-> Hin]]. by apply dirty_dict_elem in Hin as (_ & ? & _).
    + intros Hk. exists (k, getattr e k). split; [done|].
      apply dirty_dict_elem. split; [|done].
      by destruct (dirty_update_fields _ _ _ Hk) as [Hnil%elem_of_nil|].
  - intros k v Hin. by apply dirty_dict_elem in Hin as (_ & _ & ?).
  - intros Hnd k v Hin. apply dirty_dict_elem in Hin as (Hf & Hk & ->).
    apply dirty_update_elem in Hk as [v [Hin Hc]]; [|done..].
    unfold e. rewrite getattr_update by done.
    rewrite (elem_dict_get _ _ _ Hnd Hin), Hc.
    split; [done|]. by apply changed_true in Hc as [_ ?].
Qed.

(** C8.  A creation-path record (no [number] key, only field names as
    keys, a title): one [create_issue] call is made, with
    [to_dict(skip_missing=True)] as payload.  The payload holds exactly the
    fields of the new [Issue] that are not [None]; for a mapping these are
    exactly the pairs of the record whose value is not null. *)
Theorem create_sends_present_fields issue s new_issue :
  dict_get "number" issue = None -> Issue_init issue = inr new_issue ->
  title new_issue <> VNone ->
  let payload := to_dict new_issue true in
  st_calls (fst (push_one false issue s)) = st_calls s ++ [CallCreateIssue payload]
  /\ (forall k v, (k, v) ∈ payload <->
        is_field k = true /\ v = getattr new_issue k /\ v <> VNone)
  /\ (NoDup issue.*1 ->
      forall k v, (k, v) ∈ payload <-> (k, v) ∈ issue /\ v <> VNone).
Proof.
  intros Hn Hi Ht payload. split; [|split].
  - rewrite (push_one_create issue s new_issue) by done.
    fold payload. by destruct (create_issue _ _) as [?|[? ?]].
  - intros k v. apply to_dict_skip_elem.
  - intros Hnd k v. unfold payload. rewrite to_dict_skip_elem.
    destruct (Issue_init_inr _ _ Hi) as (Hkeys & Hget & _). split.
    + intros (Hf & Hv & Hnone). split; [|done].
      apply dict_default_elem; [done..|]. by rewrite <- Hget.
    + intros [Hin Hnone]. pose proof (Hkeys _ _ Hin) as Hf.
      split; [done|]. split; [|done]. rewrite Hget by done.
      symmetry. by apply dict_default_elem.
Qed.

End Reconcile.

(** ** The loop body follows the relation, and the whole run *)

Section Run.

Context `{R : Remote} `{B : Builtins}.

Implicit Types (s : pstate) (issue : dict) (issues : list dict).

Lemma push_one_view dry issue s :
  push_one_spec dry issue s (fst (push_one dry issue s)) (snd (push_one dry issue s)).
Proof.
  destruct (dict_get "number" issue) as [num|] eqn:Hn.
  - destruct (py_int num) as [e|n] eqn:Hi.
    { rewrite (push_one_bad_number dry issue s num e) by done. by eapply step_bad_number. }
    destruct (get_issue (st_repo s) n) as [e|g] eqn:Hg.
    { rewrite (push_one_lookup_fails dry issue s num n e) by done.
      by eapply step_lookup_fails. }
    destruct (dict_get "self" issue) as [v|] eqn:Hs.
    { rewrite (push_one_bad_keyword dry issue s num n g v) by done.
      by eapply step_bad_keyword. }
    destruct (decide (dirty (update (from_github g) issue) = [])) as [Hd|Hd].
    { rewrite (push_one_noop dry issue s num n g) by done. by eapply step_noop. }
    destruct dry.
    { rewrite (push_one_update_dry issue s num n g) by done. by eapply step_update_dry. }
    rewrite (push_one_update issue s num n g) by done.
    destruct (edit _ _ _) as [e|r'] eqn:He.
    + by eapply step_update_fails.
    + by eapply step_update.
  - destruct (Issue_init issue) as [e|new_issue] eqn:Hi.
    { rewrite (push_one_bad_key dry issue s e) by done. by eapply step_bad_key. }
    destruct (decide (title new_issue = VNone)) as [Ht|Ht].
    { rewrite (push_one_no_title dry issue s new_issue) by done. by eapply step_no_title. }
    destruct dry.
    { rewrite (push_one_create_dry issue s new_issue) by done. by eapply step_create_dry. }
    rewrite (push_one_create issue s new_issue) by done.
    destruct (create_issue _ _) as [e|[r' g]] eqn:Hc.
    + by eapply step_create_fails.
    + by eapply step_create.
Qed.

Lemma push_one_inv dry issue s s' res :
  push_one dry issue s = (s', res) -> push_one_spec dry issue s s' res.
Proof. intros H. pose proof (push_one_view dry issue s) as Hv. by rewrite H in Hv. Qed.

Lemma push_loop_cons dry issue issues s :
  push_loop dry (issue :: issues) s =
  match push_one dry issue s with
  | (s1, inl e) => (s1, inl e)
  | (s1, inr issue') =>
      match push_loop dry issues s1 with
      | (s2, inl e) => (s2, inl e)
      | (s2, inr rest') => (s2, inr (issue' :: rest'))
      end
  end.
Proof.
  simpl. unfold bind, ret. destruct (push_one dry issue s) as [s1 [e|issue']]; [done|].
  by destruct (push_loop dry issues s1) as [s2 [e|rest']].
Qed.

Lemma push_loop_prefix dry pre issue post s s1 pre' s2 e :
  push_loop dry pre s = (s1, inr pre') ->
  push_one dry issue s1 = (s2, inl e) ->
  push_loop dry (pre ++ issue :: post) s = (s2, inl e).
Proof.
  revert s pre'. induction pre as [|x pre IH]; intros s pre' Hpre Hone.
  - simpl in Hpre. injection Hpre as <- _. simpl app.
    by rewrite push_loop_cons, Hone.
  - simpl app. rewrite push_loop_cons in *.
    destruct (push_one dry x s) as [sx [ex|x']]; [done|].
    destruct (push_loop dry pre sx) as [sp [ep|rest']] eqn:Hp; [done|].
    injection Hpre as <- _. by rewrite (IH sx rest').
Qed.

Lemma push_loop_raises dry issue issues s :
  issue ∈ issues ->
  (forall s0, exists e, snd (push_one dry issue s0) = inl e) ->
  exists e, snd (push_loop dry issues s) = inl e.
Proof.
  intros Hin Hfail. revert s. induction issues as [|x issues IH]; intros s.
  - by apply elem_of_nil in Hin.
  - rewrite push_loop_cons.
    destruct (push_one dry x s) as [s1 [e|x']] eqn:Hx; [by exists e|].
    apply elem_of_cons in Hin as [->|Hin].
    + destruct (Hfail s) as [e He]. by rewrite Hx in He.
    + destruct (IH Hin s1) as [e He].
      destruct (push_loop dry issues s1) as [s2 [e'|rest']]; [by exists e'|done].
Qed.

Lemma filter_mutation_get calls n :
  List.filter is_mutation (calls ++ [CallGetIssue n]) = List.filter is_mutation calls.
Proof. rewrite List.filter_app. simpl. by rewrite app_nil_r. Qed.

(** In a dry run the loop body leaves the remote, the flag and the record
    alone and adds no mutating call. *)
Lemma push_one_dry_frame issue s s' res :
  push_one true issue s = (s', res) ->
  st_repo s' = st_repo s /\ new_issues_added s' = new_issues_added s /\
  List.filter is_mutation (st_calls s') = List.filter is_mutation (st_calls s) /\
  (forall issue', res = inr issue' -> issue' = issue).
Proof.
  intros H. apply push_one_inv in H.
  destruct H; try discriminate; simpl; rewrite ?filter_mutation_get;
    repeat split; try done; by intros ? [= <-].
Qed.

Lemma push_loop_dry_frame issues s s' res :
  push_loop true issues s = (s', res) ->
  st_repo s' = st_repo s /\ new_issues_added s' = new_issues_added s /\
  List.filter is_mutation (st_calls s') = List.filter is_mutation (st_calls s) /\
  (forall issues', res = inr issues' -> issues' = issues).
Proof.
  revert s s' res. induction issues as [|x issues IH]; intros s s' res H.
  - simpl in H. injection H as <- <-. repeat split; try done. by intros ? [= <-].
  - rewrite push_loop_cons in H.
    destruct (push_one true x s) as [s1 [e|x']] eqn:Hx.
    + injection H as <- <-.
      destruct (push_one_dry_frame _ _ _ _ Hx) as (? & ? & ? & _).
      repeat split; try done.
    + destruct (push_one_dry_frame _ _ _ _ Hx) as (Hr & Ha & Hc & Hi).
      rewrite (Hi x' eq_refl) in *.
      destruct (push_loop true issues s1) as [s2 [e|rest']] eqn:Hl.
      * injection H as <- <-.
        destruct (IH _ _ _ Hl) as (? & ? & ? & _).
        repeat split; try congruence; done.
      * injection H as <- <-.
        destruct (IH _ _ _ Hl) as (? & ? & ? & Hrest).
        repeat split; try congruence.
        intros ? [= <-]. by rewrite (Hrest rest' eq_refl).
Qed.

(** C9 (as amended).  In a dry run, whatever the file and the remote: no
    [edit] and no [create_issue] call is made, the remote is left as it
    was, and the input file is not written.  For each record, from the
    same state, the lines that describe the action (update with its dirty
    dictionary, or creation with its fields) are the same as without the
    dry-run flag, and an exception raised in the dry run is raised without
    it too.  The state in which a dry run reaches a record holds the
    remote as it was at the start: the record is classified as a run
    without the flag would classify it against that remote. *)
Theorem dry_run_changes_nothing :
  (forall update_input issues (r : repo),
     let o := push true update_input issues r in
     mutations o = [] /\ st_repo (end_state o) = r /\
     file_writes o = 0%nat /\ input_file o = issues) /\
  (forall issue s,
     List.filter is_description (st_out (fst (push_one true issue s)))
     = List.filter is_description (st_out (fst (push_one false issue s))) /\
     forall e, snd (push_one true issue s) = inl e ->
               snd (push_one false issue s) = inl e) /\
  (forall pre (r : repo) s1 pre',
     push_loop true pre (mkState r [] [] false) = (s1, inr pre') ->
     st_repo s1 = r /\ pre' = pre).
Proof.
  split; [|split].
  - intros update_input issues r o. unfold o, push, mutations.
    destruct (push_loop true issues _) as [s res] eqn:Hl.
    destruct (push_loop_dry_frame _ _ _ _ Hl) as (Hr & Ha & Hc & _).
    simpl in Hr, Ha, Hc. destruct res as [e|issues']; simpl; [done|].
    rewrite Ha. done.
  - intros issue s.
    destruct (dict_get "number" issue) as [num|] eqn:Hn.
    + destruct (py_int num) as [e|n] eqn:Hi.
      { by rewrite !(push_one_bad_number _ issue s num e). }
      destruct (get_issue (st_repo s) n) as [e|g] eqn:Hg.
      { by rewrite !(push_one_lookup_fails _ issue s num n e). }
      destruct (dict_get "self" issue) as [v|] eqn:Hs.
      { by rewrite !(push_one_bad_keyword _ issue s num n g v). }
      destruct (decide (dirty (update (from_github g) issue) = [])) as [Hd|Hd].
      { by rewrite !(push_one_noop _ issue s num n g). }
      rewrite (push_one_update_dry issue s num n g) by done.
      rewrite (push_one_update issue s num n g) by done.
      split; [|done].
      destruct (edit _ _ _); simpl; rewrite !List.filter_app; simpl;
        by rewrite ?app_nil_r.
    + destruct (Issue_init issue) as [e|new_issue] eqn:Hi.
      { by rewrite !(push_one_bad_key _ issue s e). }
      destruct (decide (title new_issue = VNone)) as [Ht|Ht].
      { by rewrite !(push_one_no_title _ issue s new_issue). }
      rewrite (push_one_create_dry issue s new_issue) by done.
      rewrite (push_one_create issue s new_issue) by done.
      split; [|done].
      destruct (create_issue _ _) as [?|[? ?]]; simpl; rewrite !List.filter_app;
        simpl; by rewrite ?app_nil_r.
  - intros pre r s1 pre' Hl.
    destruct (push_loop_dry_frame _ _ _ _ Hl) as (Hr & _ & _ & Hsame).
    split; [done|]. by apply Hsame.
Qed.

Lemma update_ignores_unknown self (kwargs : dict) :
  update self kwargs = update self (List.filter (fun kv => is_field (fst kv)) kwargs).
Proof.
  revert self. induction kwargs as [|[k v] rest IH]; intros self; [done|].
  cbn [List.filter fst]. destruct (is_field k) eqn:Hk.
  - rewrite !update_cons. by destruct (_ && _).
  - rewrite update_cons, Hk. simpl. apply IH.
Qed.

Lemma dict_get_filter_fields k (d : dict) :
  is_field k = true ->
  dict_get k (List.filter (fun kv => is_field (fst kv)) d) = dict_get k d.
Proof.
  intros Hk. induction d as [|[k' v'] d IH]; [done|].
  cbn [List.filter fst]. destruct (is_field k') eqn:Hk'; simpl.
  - by rewrite IH.
  - rewrite IH. case_bool_decide; [congruence|done].
Qed.

(** A record that makes the loop body raise from every state makes the
    run end in an exception, the file untouched. *)
Lemma push_raises dry update_input issue issues (r : repo) :
  issue ∈ issues ->
  (forall s0, exists e, snd (push_one dry issue s0) = inl e) ->
  raised (push dry update_input issues r) <> None /\
  file_writes (push dry update_input issues r) = 0%nat /\
  input_file (push dry update_input issues r) = issues.
Proof.
  intros Hin Hfail. unfold push.
  destruct (push_loop_raises dry issue issues (mkState r [] [] false) Hin Hfail)
    as [e He].
  destruct (push_loop dry issues _) as [s' [e'|issues']]; [done|].
  simpl in He. discriminate.
Qed.

(** C10.  The key [self] is not a field name, yet an update-path record
    that carries it is not handled as the record without it: once the
    issue has been looked up, the call of [update] raises [TypeError],
    in a dry run or not.  No [edit] is made and nothing is echoed for the
    record. *)
Theorem self_key_raises dry issue s num n g v :
  dict_get "number" issue = Some num -> py_int num = inr n ->
  get_issue (st_repo s) n = inr g ->
  dict_get "self" issue = Some v ->
  is_field "self" = false /\
  push_one dry issue s
  = (mkState (st_repo s) (st_calls s ++ [CallGetIssue n]) (st_out s)
             (new_issues_added s), inl TypeError).
Proof.
  intros Hn Hi Hg Hs. split; [done|].
  run_step. rewrite Hn, Hi. simpl. rewrite Hg. simpl.
  unfold call_update. by rewrite Hs.
Qed.

Lemma dict_get_filter_not_field k (d : dict) :
  is_field k = false ->
  dict_get k (List.filter (fun kv => is_field (fst kv)) d) = None.
Proof.
  intros Hk. induction d as [|[k' v'] d IH]; [done|].
  cbn [List.filter fst]. destruct (is_field k') eqn:Hk'; [|done].
  simpl. case_bool_decide; [congruence|done].
Qed.

(** X22.  [update] skips the keys that are not field names: an
    update-path record without a key [self] that carries such keys is
    handled as the record without them (same calls, same lines, same
    remote, an exception in the same cases).  A creation candidate with
    such a key raises [TypeError] when the [Issue] is constructed: no call
    is made and nothing is echoed for that record, and a run whose input
    contains such a candidate ends in an exception without writing the
    file. *)
Theorem unknown_key_only_on_update :
  (forall self (kwargs : dict),
     update self kwargs
     = update self (List.filter (fun kv => is_field (fst kv)) kwargs)) /\
  (forall dry issue s,
     dict_get "number" issue <> None -> dict_get "self" issue = None ->
     let issue0 := List.filter (fun kv => is_field (fst kv)) issue in
     fst (push_one dry issue s) = fst (push_one dry issue0 s) /\
     forall e, snd (push_one dry issue s) = inl e <->
               snd (push_one dry issue0 s) = inl e) /\
  (forall dry issue s k v,
     dict_get "number" issue = None -> (k, v) ∈ issue -> is_field k = false ->
     push_one dry issue s = (s, inl TypeError)) /\
  (forall dry update_input issues (r : repo) issue k v,
     issue ∈ issues ->
     dict_get "number" issue = None -> (k, v) ∈ issue -> is_field k = false ->
     raised (push dry update_input issues r) <> None /\
     file_writes (push dry update_input issues r) = 0%nat /\
     input_file (push dry update_input issues r) = issues).
Proof.
  split; [apply update_ignores_unknown|]. split; [|split].
  - intros dry issue s Hn Hs issue0.
    assert (Hn0 : dict_get "number" issue0 = dict_get "number" issue)
      by by apply dict_get_filter_fields.
    assert (Hs0 : dict_get "self" issue0 = None)
      by by apply dict_get_filter_not_field.
    assert (Hu : forall g, update (from_github g) issue0 = update (from_github g) issue)
      by (intros g; symmetry; apply update_ignores_unknown).
    destruct (dict_get "number" issue) as [num|] eqn:Hnum; [|done].
    destruct (py_int num) as [e|n] eqn:Hi.
    { by rewrite !(push_one_bad_number dry _ s num e). }
    destruct (get_issue (st_repo s) n) as [e|g] eqn:Hg.
    { by rewrite !(push_one_lookup_fails dry _ s num n e). }
    destruct (decide (dirty (update (from_github g) issue) = [])) as [Hd|Hd].
    { rewrite (push_one_noop dry issue s num n g) by done.
      by rewrite (push_one_noop dry issue0 s num n g) by (by rewrite ?Hu). }
    destruct dry.
    { rewrite (push_one_update_dry issue s num n g) by done.
      rewrite (push_one_update_dry issue0 s num n g) by (by rewrite ?Hu).
      by rewrite Hu. }
    rewrite (push_one_update issue s num n g) by done.
    rewrite (push_one_update issue0 s num n g) by (by rewrite ?Hu).
    rewrite Hu. by destruct (edit _ _ _).
  - intros dry issue s k v Hn Hin Hk.
    apply push_one_bad_key; [done|]. by eapply Issue_init_inl.
  - intros dry update_input issues r issue k v Hin Hn Hkv Hk.
    apply (push_raises dry update_input issue); [done|].
    intros s0. exists TypeError.
    rewrite (push_one_bad_key dry issue s0 TypeError); [done..|].
    by eapply Issue_init_inl.
Qed.

(** C2 (as amended).  A run whose input contains a creation candidate
    without a title ([title] absent or null) ends in an exception and does
    not write the file.  When the loop reaches such a candidate (its keys
    all field names), the records before it having been processed without
    an exception, the exception is the usage error, raised in the state
    the earlier records left: no call is made for the candidate or for any
    later record, while the calls made for the earlier records stand. *)
Theorem missing_title_aborts :
  (forall dry update_input issues (r : repo) issue,
     issue ∈ issues ->
     dict_get "number" issue = None -> dict_default "title" issue = VNone ->
     raised (push dry update_input issues r) <> None /\
     file_writes (push dry update_input issues r) = 0%nat /\
     input_file (push dry update_input issues r) = issues) /\
  (forall dry update_input pre issue post (r : repo) s1 pre',
     push_loop dry pre (mkState r [] [] false) = (s1, inr pre') ->
     dict_get "number" issue = None ->
     forallb (fun kv => is_field (fst kv)) issue = true ->
     dict_default "title" issue = VNone ->
     let o := push dry update_input (pre ++ issue :: post) r in
     raised o = Some (UsageError "All issues must have a title.") /\
     end_state o = s1 /\
     file_writes o = 0%nat /\ input_file o = pre ++ issue :: post).
Proof.
  split.
  - intros dry update_input issues r issue Hin Hn Ht.
    apply (push_raises dry update_input issue); [done|]. intros s0.
    destruct (Issue_init issue) as [e|new_issue] eqn:Hinit.
    + exists e. by rewrite (push_one_bad_key dry issue s0 e).
    + exists (UsageError "All issues must have a title.").
      rewrite (push_one_no_title dry issue s0 new_issue); [done..|].
      unfold Issue_init in Hinit. destruct (forallb _ _); [|done].
      by injection Hinit as <-.
  - intros dry update_input pre issue post r s1 pre' Hpre Hn Hkeys Ht o.
    unfold o, push.
    assert (Hinit : exists new_issue,
               Issue_init issue = inr new_issue /\ title new_issue = VNone)
      by (unfold Issue_init; rewrite Hkeys; eauto).
    destruct Hinit as (new_issue & Hinit & Htitle).
    by rewrite (push_loop_prefix dry pre issue post _ s1 pre' s1
               (UsageError "All issues must have a title.") Hpre
               (push_one_no_title dry issue s1 new_issue Hn Hinit Htitle)).
Qed.

End Run.

(** ** Idempotence of [push] *)

Lemma dirty_update_nil r (f : dict) :
  dirty r = [] -> NoDup f.*1 ->
  (forall k v, (k, v) ∈ f -> is_field k = true ->
     comp_newline (getattr r k) v = true) ->
  dirty (update r f) = [].
Proof.
  intros Hr Hnd Hsame.
  destruct (dirty (update r f)) as [|k d] eqn:Hd; [done|]. exfalso.
  assert (Hk : k ∈ dirty (update r f)) by (rewrite Hd; apply list_elem_of_here).
  apply dirty_update_elem in Hk as [v [Hin Hc]]; [|done..].
  apply changed_true in Hc as [Hf Hc]. rewrite (Hsame k v) in Hc; done.
Qed.

Lemma dict_get_filter_asdict (P : string * value -> bool) e k :
  is_field k = true ->
  dict_get k (List.filter P (asdict e))
  = if P (k, getattr e k) then Some (getattr e k) else None.
Proof.
  intros Hk. unfold asdict.
  destruct (is_field_cases k Hk) as [->|[->|[->|[->| ->]]]];
    cbn [List.map field_names List.filter];
    change (getattr e "number") with (number e);
    change (getattr e "title") with (title e);
    change (getattr e "body") with (body e);
    change (getattr e "assignees") with (assignees e);
    change (getattr e "labels") with (labels e);
    destruct (P ("number", number e)), (P ("title", title e)),
      (P ("body", body e)), (P ("assignees", assignees e)),
      (P ("labels", labels e)); reflexivity.
Qed.

Lemma dict_get_dirty_dict e k :
  is_field k = true ->
  dict_get k (_dirty_dict e)
  = if bool_decide (k ∈ dirty e) then Some (getattr e k) else None.
Proof.
  intros Hk. unfold _dirty_dict, to_dict.
  by rewrite dict_get_filter_asdict.
Qed.

Lemma dict_get_to_dict_skip e k :
  is_field k = true ->
  dict_get k (to_dict e true)
  = if not_none (getattr e k) then Some (getattr e k) else None.
Proof.
  intros Hk. unfold to_dict. by rewrite dict_get_filter_asdict.
Qed.

Lemma remote_field_cases k :
  k ∈ remote_fields <->
  k = "title" \/ k = "body" \/ k = "assignees" \/ k = "labels".
Proof. unfold remote_fields. rewrite !elem_of_cons, elem_of_nil. tauto. Qed.

Lemma remote_field_is_field k : k ∈ remote_fields -> is_field k = true.
Proof.
  rewrite remote_field_cases. by intros [->|[->|[->| ->]]].
Qed.

Lemma is_field_remote k : is_field k = true -> k <> "number" -> k ∈ remote_fields.
Proof.
  intros Hk Hne. apply remote_field_cases.
  destruct (is_field_cases k Hk) as [->|H]; [done|tauto].
Qed.

(** *** The tracker keeps what it is sent *)

Lemma set_fields_spec g0 p g1 :
  set_fields g0 p = inr g1 ->
  gh_number g1 = gh_number g0 /\
  forall k, k ∈ remote_fields ->
    getattr (from_github g1) k
    = default (getattr (from_github g0) k) (dict_get k p).
Proof.
  unfold set_fields. destruct (forallb _ _); [|done].
  destruct (kw_str _ _ _) as [|t] eqn:Ht; [done|].
  destruct (kw_opt_str _ _ _) as [|b] eqn:Hb; [done|].
  destruct (kw_list "assignees" _ _) as [|a] eqn:Ha; [done|].
  destruct (kw_list "labels" _ _) as [|l] eqn:Hl; [done|].
  intros [= <-]. split; [done|]. intros k Hk.
  apply remote_field_cases in Hk as [->|[->|[->| ->]]].
  - unfold kw_str in Ht. cbn.
    destruct (dict_get "title" p) as [[]|]; simplify_eq; done.
  - unfold kw_opt_str in Hb. cbn.
    destruct (dict_get "body" p) as [[]|]; simplify_eq; done.
  - unfold kw_list in Ha. cbn.
    destruct (dict_get "assignees" p) as [[]|]; simplify_eq; done.
  - unfold kw_list in Hl. cbn.
    destruct (dict_get "labels" p) as [[]|]; simplify_eq; done.
Qed.

Lemma with_number_fields n g k :
  k ∈ remote_fields ->
  getattr (from_github (with_number n g)) k = getattr (from_github g) k.
Proof. rewrite remote_field_cases. by intros [->|[->|[->| ->]]]. Qed.

Lemma with_number_id g : with_number (gh_number g) g = g.
Proof. by destruct g. Qed.

Lemma set_fields_create n p g :
  set_fields (mkGh n "" None [] []) p = inr g ->
  (forall k v, k ∈ remote_fields -> dict_get k p = Some v ->
     getattr (from_github g) k = v) /\
  (dict_get "body" p = None -> gh_body g = None) /\
  (dict_get "assignees" p = None -> gh_assignees g = []) /\
  (dict_get "labels" p = None -> gh_labels g = []).
Proof.
  intros Hs. destruct (set_fields_spec _ _ _ Hs) as [_ Hf].
  split; [|split; [|split]].
  - intros k v Hk Hg. by rewrite (Hf k Hk), Hg.
  - intros Hg. pose proof (Hf "body" ltac:(by apply remote_field_cases; tauto)) as H.
    rewrite Hg in H. by destruct g as [? ? [?|] ? ?].
  - intros Hg.
    pose proof (Hf "assignees" ltac:(by apply remote_field_cases; tauto)) as H.
    rewrite Hg in H. by injection H.
  - intros Hg.
    pose proof (Hf "labels" ltac:(by apply remote_field_cases; tauto)) as H.
    rewrite Hg in H. by injection H.
Qed.

#[global] Instance tracker_laws : RemoteLaws tracker.
Proof.
  constructor; simpl.
  - intros r n g. unfold tracker_get. destruct (r !! n); [|done]. by intros [= <-].
  - intros r r' g p Hget. unfold tracker_edit, tracker_get in *.
    destruct (r !! gh_number g) as [g0|] eqn:Hr; [|done].
    injection Hget as Hg.
    destruct (set_fields g0 p) as [|g1] eqn:Hs; [done|]. intros [= <-].
    rewrite lookup_insert_eq. eexists. split; [done|]. intros k Hk.
    destruct (set_fields_spec _ _ _ Hs) as [_ Hf].
    by rewrite with_number_fields, (Hf k Hk), <- Hg, with_number_fields.
  - intros r r' g p n. unfold tracker_edit, tracker_get.
    destruct (r !! gh_number g) as [g0|]; [|done].
    destruct (set_fields g0 p) as [|g1]; [done|]. intros [= <-] Hne.
    by rewrite lookup_insert_ne.
  - intros r r' g p. unfold tracker_create, tracker_get.
    destruct (dict_get "title" p); [|done].
    destruct (set_fields _ p) as [|g1] eqn:Hs; [done|]. intros [= <- <-].
    rewrite lookup_insert_eq, with_number_id. split; [done|].
    by eapply set_fields_create.
  - intros r r' g p n. unfold tracker_create, tracker_get.
    destruct (dict_get "title" p); [|done].
    destruct (set_fields _ p) as [|g1]; [done|]. intros [= <- <-] Hne.
    by rewrite lookup_insert_ne.
Qed.

(** *** A successful run leaves every record in step with the remote *)

Section Idempotence.

Context `{R : Remote} `{B : Builtins} {L : RemoteLaws R}.

Implicit Types (s : pstate) (issue : dict) (issues : list dict) (r : repo).

Lemma wf_number issue num n :
  wf_record issue -> dict_get "number" issue = Some num ->
  py_int num = inr n -> num = VInt n.
Proof.
  intros (_ & Hnum & _) Hn Hi. destruct (Hnum _ Hn) as [n0 ->].
  simpl in Hi. congruence.
Qed.

Lemma synced_after_edit issue r r' n g :
  wf_record issue -> dict_get "number" issue = Some (VInt n) ->
  dict_get "self" issue = None ->
  get_issue r n = inr g ->
  edit r g (_dirty_dict (update (from_github g) issue)) = inr r' ->
  synced r' issue.
Proof.
  intros (Hnd & _ & _) Hn Hself Hget Hedit.
  pose proof (get_issue_number _ _ _ Hget) as Hgn.
  destruct (edit_get r r' g (_dirty_dict (update (from_github g) issue)))
    as [g' [Hget' Hf]]; [by rewrite Hgn|done|].
  exists n, g'. split; [done|]. split; [by rewrite <- Hgn|]. split; [|done].
  apply dirty_update_nil; [done..|]. intros k v Hin Hk.
  pose proof (elem_dict_get _ _ _ Hnd Hin) as Hkv.
  destruct (decide (k = "number")) as [->|Hne].
  - rewrite Hn in Hkv. injection Hkv as <-.
    change (getattr (from_github g') "number") with (VInt (gh_number g')).
    rewrite (get_issue_number _ _ _ Hget'), Hgn. apply comp_newline_refl.
  - rewrite (Hf k) by by apply is_field_remote.
    rewrite dict_get_dirty_dict by done.
    destruct (changed (from_github g) (k, v)) eqn:Hc.
    + rewrite bool_decide_eq_true_2
        by (apply dirty_update_elem; [done..|]; by exists v).
      simpl. rewrite getattr_update, Hkv, Hc by done. apply comp_newline_refl.
    + rewrite bool_decide_eq_false_2.
      * simpl. unfold changed in Hc. simpl in Hc. rewrite Hk in Hc.
        simpl in Hc. by apply negb_false_iff in Hc.
      * intros Hd. apply dirty_update_elem in Hd as [v' [Hin' Hc']]; [|done..].
        pose proof (elem_dict_get _ _ _ Hnd Hin') as Hkv'. congruence.
Qed.

Lemma Issue_init_no_self (kwargs : dict) new_issue :
  Issue_init kwargs = inr new_issue -> dict_get "self" kwargs = None.
Proof.
  intros Hinit. destruct (Issue_init_inr _ _ Hinit) as (Hkeys & _).
  destruct (dict_get "self" kwargs) as [v|] eqn:Hs; [|done].
  apply dict_get_Some_elem, Hkeys in Hs. done.
Qed.

Lemma synced_after_create issue new_issue r r' g :
  wf_record issue -> dict_get "number" issue = None ->
  Issue_init issue = inr new_issue -> title new_issue <> VNone ->
  create_issue r (to_dict new_issue true) = inr (r', g) ->
  synced r' (("number", VInt (gh_number g)) :: issue).
Proof.
  intros (Hnd & _ & Hnull) Hn Hinit Ht Hcreate.
  destruct (Hnull Hn) as [Hna Hnl].
  destruct (create_get _ _ _ _ Hcreate) as (Hget & Hsome & Hb & Ha & Hl).
  destruct (Issue_init_inr _ _ Hinit) as (_ & Hfields & _).
  exists (gh_number g), g. split; [done|]. split; [done|].
  split; [|by apply (Issue_init_no_self _ _ Hinit)].
  rewrite update_cons. change (getattr (from_github g) "number") with (VInt (gh_number g)).
  rewrite comp_newline_refl, andb_false_r.
  apply dirty_update_nil; [done..|]. intros k v Hin Hk.
  pose proof (elem_dict_get _ _ _ Hnd Hin) as Hkv.
  assert (Hne : k <> "number") by (intros ->; congruence).
  pose proof (is_field_remote k Hk Hne) as Hrem.
  assert (Hgetk : getattr new_issue k = v)
    by (rewrite Hfields by done; unfold dict_default; by rewrite Hkv).
  destruct (decide (v = VNone)) as [->|Hv].
  - pose proof (dict_get_to_dict_skip new_issue k Hk) as Hp.
    rewrite Hgetk in Hp. simpl in Hp.
    apply remote_field_cases in Hrem as [->|[->|[->| ->]]].
    + done.
    + change (getattr (from_github g) "body") with (from_option VStr VNone (gh_body g)).
      by rewrite (Hb Hp).
    + done.
    + done.
  - rewrite (Hsome k v Hrem); [apply comp_newline_refl|].
    rewrite dict_get_to_dict_skip, Hgetk by done. by destruct v.
Qed.

Lemma step_sync issue s s' issue' :
  push_one false issue s = (s', inr issue') -> wf_record issue ->
  synced (st_repo s') issue'.
Proof.
  intros H Hwf. apply push_one_inv in H.
  inversion H as [| | |num n g Hn Hi Hg Hs Hd|num n g ? Hn Hi Hg Hs Hd|
                  |num n g r' _ Hn Hi Hg Hs Hd He
                  | | |ni ? Hn Hi Ht| |ni r' g _ Hn Hi Ht Hc]; subst; simpl; try done.
  - rewrite (wf_number _ _ _ Hwf Hn Hi) in Hn. by exists n, g.
  - rewrite (wf_number _ _ _ Hwf Hn Hi) in Hn. by eapply synced_after_edit.
  - by eapply synced_after_create.
Qed.

Lemma step_frame issue s s' issue' x :
  push_one false issue s = (s', inr issue') -> wf_record issue ->
  synced (st_repo s) x ->
  dict_get "number" x <> dict_get "number" issue' ->
  synced (st_repo s') x.
Proof.
  intros H Hwf (nx & gx & Hnx & Hgx & Hdx & Hsx) Hne. apply push_one_inv in H.
  inversion H as [| | |num n g Hn Hi Hg Hs Hd|num n g ? Hn Hi Hg Hs Hd|
                  |num n g r' _ Hn Hi Hg Hs Hd He
                  | | |ni ? Hn Hi Ht| |ni r' g _ Hn Hi Ht Hc]; subst; simpl; try done.
  - by exists nx, gx.
  - rewrite (wf_number _ _ _ Hwf Hn Hi) in Hn.
    exists nx, gx. split; [done|]. split; [|done].
    rewrite (edit_frame _ _ _ _ nx He); [done|].
    rewrite (get_issue_number _ _ _ Hg). congruence.
  - exists nx, gx. split; [done|]. split; [|done].
    rewrite (create_frame _ _ _ _ nx Hc); [done|].
    simpl in Hne. congruence.
Qed.

Lemma loop_frame issues s s' issues' x :
  push_loop false issues s = (s', inr issues') -> Forall wf_record issues ->
  synced (st_repo s) x -> dict_get "number" x ∉ numbers issues' ->
  synced (st_repo s') x.
Proof.
  revert s issues'. induction issues as [|issue issues IH]; intros s issues' H Hwf Hx Hne.
  - simpl in H. by injection H as <- _.
  - apply Forall_cons in Hwf as [Hwf1 Hwf]. rewrite push_loop_cons in H.
    destruct (push_one false issue s) as [s1 [e|issue1]] eqn:H1; [done|].
    destruct (push_loop false issues s1) as [s2 [e|rest']] eqn:H2; [done|].
    injection H as <- <-. unfold numbers in Hne. rewrite fmap_cons in Hne.
    apply not_elem_of_cons in Hne as [Hne1 Hne2].
    eapply IH; [done..| |done]. by eapply step_frame.
Qed.

Lemma loop_sync issues s s' issues' :
  push_loop false issues s = (s', inr issues') -> Forall wf_record issues ->
  NoDup (numbers issues') -> Forall (synced (st_repo s')) issues'.
Proof.
  revert s issues'. induction issues as [|issue issues IH]; intros s issues' H Hwf Hnd.
  - simpl in H. injection H as <- <-. constructor.
  - apply Forall_cons in Hwf as [Hwf1 Hwf]. rewrite push_loop_cons in H.
    destruct (push_one false issue s) as [s1 [e|issue1]] eqn:H1; [done|].
    destruct (push_loop false issues s1) as [s2 [e|rest']] eqn:H2; [done|].
    injection H as <- <-. unfold numbers in Hnd. rewrite fmap_cons in Hnd.
    apply NoDup_cons in Hnd as [Hfresh Hnd]. apply Forall_cons. split.
    + eapply loop_frame; [done..| |done]. by eapply step_sync.
    + by eapply IH.
Qed.

(** Records in step with the remote are skipped one after the other. *)
Lemma loop_noop dry issues s :
  Forall (synced (st_repo s)) issues ->
  exists calls,
    push_loop dry issues s
    = (mkState (st_repo s) (st_calls s ++ calls) (st_out s) (new_issues_added s),
       inr issues)
    /\ List.filter is_mutation calls = [].
Proof.
  revert s. induction issues as [|issue issues IH]; intros s Hall.
  - exists []. simpl. rewrite app_nil_r. by destruct s.
  - apply Forall_cons in Hall as [(n & g & Hn & Hg & Hd & Hs) Hall].
    rewrite push_loop_cons, (push_one_noop dry issue s (VInt n) n g) by done.
    destruct (IH (mkState (st_repo s) (st_calls s ++ [CallGetIssue n]) (st_out s)
                          (new_issues_added s)) Hall) as (calls & -> & Hc).
    exists (CallGetIssue n :: calls). simpl. by rewrite <- app_assoc.
Qed.

Lemma step_flag dry issue s s' res :
  push_one dry issue s = (s', res) ->
  (new_issues_added s = true -> new_issues_added s' = true) /\
  (forall issue', res = inr issue' -> new_issues_added s' = false -> issue' = issue).
Proof.
  intros H. apply push_one_inv in H.
  destruct H; simpl; split; try done; by intros ? [= <-].
Qed.

Lemma loop_flag dry issues s s' res :
  push_loop dry issues s = (s', res) ->
  new_issues_added s = true -> new_issues_added s' = true.
Proof.
  revert s s' res. induction issues as [|issue issues IH]; intros s s' res H Hs.
  - simpl in H. by injection H as <- _.
  - rewrite push_loop_cons in H.
    destruct (push_one dry issue s) as [s1 [e|issue1]] eqn:H1.
    + injection H as <- _. by apply (step_flag _ _ _ _ _ H1).
    + apply (step_flag _ _ _ _ _ H1) in Hs.
      destruct (push_loop dry issues s1) as [s2 [e|rest']] eqn:H2;
        injection H as <- _; by eapply IH.
Qed.

Lemma loop_unchanged dry issues s s' issues' :
  push_loop dry issues s = (s', inr issues') ->
  new_issues_added s' = false -> issues' = issues.
Proof.
  revert s issues'. induction issues as [|issue issues IH]; intros s issues' H Hs.
  - simpl in H. by injection H as _ <-.
  - rewrite push_loop_cons in H.
    destruct (push_one dry issue s) as [s1 [e|issue1]] eqn:H1; [done|].
    destruct (push_loop dry issues s1) as [s2 [e|rest']] eqn:H2; [done|].
    injection H as <- <-.
    assert (Hs1 : new_issues_added s1 = false).
    { destruct (new_issues_added s1) eqn:Hf; [|done].
      by rewrite (loop_flag _ _ _ _ _ H2 Hf) in Hs. }
    f_equal; [|by eapply IH].
    by apply (step_flag _ _ _ _ _ H1).
Qed.

(** C1 (as amended).  Against a remote that keeps what it is sent
    ([RemoteLaws]), let a push that is not a dry run end without an
    exception, the file being rewritten if issues were created.  If the
    records are mappings with integer identifiers and without null
    [assignees] or [labels] on creation candidates, and the identifiers of
    the resulting file are pairwise distinct, then a second push of that
    file, in any mode, makes no [edit] and no [create_issue] call, echoes
    nothing, and leaves the remote and the file as they are. *)
Theorem push_idempotent dry2 update_input1 update_input2 issues r :
  let o1 := push false update_input1 issues r in
  raised o1 = None ->
  update_input1 = true \/ new_issues_added (end_state o1) = false ->
  Forall wf_record issues ->
  NoDup (numbers (input_file o1)) ->
  let o2 := push dry2 update_input2 (input_file o1) (st_repo (end_state o1)) in
  raised o2 = None /\ mutations o2 = [] /\ st_out (end_state o2) = [] /\
  st_repo (end_state o2) = st_repo (end_state o1) /\
  file_writes o2 = 0%nat /\ input_file o2 = input_file o1.
Proof.
  intros o1 Hok Hupd Hwf Hnd o2.
  assert (Hrun : exists s' issues',
             push_loop false issues (mkState r [] [] false) = (s', inr issues') /\
             st_repo (end_state o1) = st_repo s' /\ input_file o1 = issues').
  { unfold o1, push in *.
    destruct (push_loop false issues _) as [s' [e|issues']] eqn:Hl; [done|].
    exists s', issues'. split; [done|].
    destruct (new_issues_added s') eqn:Hf.
    - destruct update_input1; simpl in *; [done|].
      destruct Hupd as [?|?]; congruence.
    - simpl. split; [done|]. symmetry. by eapply loop_unchanged. }
  destruct Hrun as (s' & issues' & Hl & Hrepo & Hfile).
  unfold o2. rewrite Hfile in *. rewrite Hrepo.
  pose proof (loop_sync _ _ _ _ Hl Hwf Hnd) as Hsync.
  destruct (loop_noop dry2 issues' (mkState (st_repo s') [] [] false) Hsync)
    as (calls & Hl2 & Hcalls).
  unfold push, mutations. rewrite Hl2. simpl. by rewrite Hcalls.
Qed.

End Idempotence.

Lemma wf_record_intro (issue : dict) :
  NoDup issue.*1 ->
  (forall v, dict_get "number" issue = Some v -> exists n, v = VInt n) ->
  (dict_get "number" issue = None ->
   dict_get "assignees" issue <> Some VNone /\
   dict_get "labels" issue <> Some VNone) ->
  wf_record issue.
Proof. by intros ? ? ?. Qed.

Lemma push_idempotent_witness :
  let file := [[("title", VStr "Fix crash"); ("labels", VList ["bug"])];
               [("number", VInt 42); ("title", VStr "Fix crash!!")]] in
  let o1 := run_push false true file scenario_repo in
  input_file o1
  = [[("number", VInt 43); ("title", VStr "Fix crash"); ("labels", VList ["bug"])];
     [("number", VInt 42); ("title", VStr "Fix crash!!")]]
  /\ mutations (run_push false true (input_file o1) (st_repo (end_state o1))) = [].
Proof.
  split; [by vm_compute|].
  apply (@push_idempotent tracker no_int_of_str tracker_laws false true true).
  - by vm_compute.
  - by left.
  - repeat apply Forall_cons_2; [| |apply Forall_nil_2].
    + apply wf_record_intro.
      * by apply (bool_decide_unpack _).
      * intros v. simpl. done.
      * intros _. simpl. done.
    + apply wf_record_intro.
      * by apply (bool_decide_unpack _).
      * intros v. simpl. intros [= <-]. by exists 42.
      * simpl. done.
  - apply (bool_decide_unpack _). by vm_compute.
Defined.

(** C1, the claim as stated fails: a file with two records for issue 42
    that give different titles.  Each run sets the title twice, so the
    second run makes two [edit] calls against the remote the first run
    left; no issue is created and the file is the same for both runs. *)
Lemma push_twice_same_number :
  let file := [[("number", VInt 42); ("title", VStr "a")];
               [("number", VInt 42); ("title", VStr "b")]] in
  let o1 := run_push false true file scenario_repo in
  raised o1 = None /\ input_file o1 = file /\
  mutations (run_push false true (input_file o1) (st_repo (end_state o1)))
  = [CallEdit 42 [("title", VStr "a")]; CallEdit 42 [("title", VStr "b")]].
Proof. by vm_compute. Qed.

(** ** The scenarios of the specification *)

(** Scenario D: the candidate without a title is the only record. *)
Lemma missing_title_aborts_witness :
  let o := run_push false true [[("labels", VList ["bug"])]] scenario_repo in
  raised o = Some (UsageError "All issues must have a title.") /\
  end_state o = start scenario_repo /\
  file_writes o = 0%nat /\ input_file o = [[("labels", VList ["bug"])]].
Proof.
  apply (proj2 (@missing_title_aborts tracker no_int_of_str) false true []
           [("labels", VList ["bug"])] [] scenario_repo (start scenario_repo) []);
    reflexivity.
Defined.

(** C2, the claim as stated fails: the candidate without a title comes
    second.  The usage error is raised, but only after the first record
    has been created on the remote. *)
Lemma missing_title_after_create :
  let o := run_push false true
             [[("title", VStr "a")]; [("labels", VList ["bug"])]] scenario_repo in
  raised o = Some (UsageError "All issues must have a title.") /\
  mutations o = [CallCreateIssue [("title", VStr "a")]] /\
  st_repo (end_state o) !! 43 = Some (mkGh 43 "a" None [] []).
Proof. by vm_compute. Qed.

(** Scenario B: the remote title is already the one of the record. *)
Lemma clean_record_is_skipped_witness :
  @push_one tracker no_int_of_str false
    [("number", VInt 42); ("title", VStr "Fix crash")] (start scenario_repo)
  = (@mkState tracker scenario_repo [CallGetIssue 42] [] false,
     inr [("number", VInt 42); ("title", VStr "Fix crash")]).
Proof.
  apply (@clean_record_is_skipped tracker no_int_of_str false
           [("number", VInt 42); ("title", VStr "Fix crash")]
           (start scenario_repo) (VInt 42) 42 (mkGh 42 "Fix crash" None [] [])
           (from_github (mkGh 42 "Fix crash" None [] [])));
    reflexivity.
Defined.

(** Scenario C: only the title differs, only the title is sent. *)
Lemma update_sends_dirty_fields_witness :
  st_calls (fst (@push_one tracker no_int_of_str false
    [("number", VInt 42); ("title", VStr "Fix crash!!")] (start scenario_repo)))
  = [CallGetIssue 42; CallEdit 42 [("title", VStr "Fix crash!!")]].
Proof.
  apply (@update_sends_dirty_fields tracker no_int_of_str
           [("number", VInt 42); ("title", VStr "Fix crash!!")]
           (start scenario_repo) (VInt 42) 42 (mkGh 42 "Fix crash" None [] [])
           (mkIssue (VInt 42) (VStr "Fix crash!!") VNone (VList []) (VList [])
                    ["title"]));
    [reflexivity..|discriminate].
Defined.

(** Scenario A: a new issue with a title and labels. *)
Lemma create_sends_present_fields_witness :
  st_calls (fst (@push_one tracker no_int_of_str false
    [("title", VStr "Fix crash"); ("labels", VList ["bug"])] (start scenario_repo)))
  = [CallCreateIssue [("title", VStr "Fix crash"); ("labels", VList ["bug"])]].
Proof.
  apply (@create_sends_present_fields tracker no_int_of_str
           [("title", VStr "Fix crash"); ("labels", VList ["bug"])]
           (start scenario_repo)
           (mkIssue VNone (VStr "Fix crash") VNone VNone (VList ["bug"]) []));
    [reflexivity..|discriminate].
Defined.

(** Scenario E: scenarios A and C in one file, as a dry run. *)
Lemma dry_run_changes_nothing_witness :
  let file := [[("title", VStr "Fix crash"); ("labels", VList ["bug"])];
               [("number", VInt 42); ("title", VStr "Fix crash!!")]] in
  let o := run_push true true file scenario_repo in
  mutations o = [] /\ st_repo (end_state o) = scenario_repo /\
  file_writes o = 0%nat /\ input_file o = file.
Proof.
  apply (proj1 (@dry_run_changes_nothing tracker no_int_of_str)).
Defined.

(** C9, the claim as stated fails: two records for issue 42, the second
    with the title the remote has at the start.  The dry run compares
    both with the remote as it was and describes one update; the run
    without the flag has changed the title when it reaches the second
    record and describes two. *)
Lemma dry_run_differs_after_update :
  let file := [[("number", VInt 42); ("title", VStr "a")];
               [("number", VInt 42); ("title", VStr "Fix crash")]] in
  List.filter is_description
    (st_out (end_state (run_push true true file scenario_repo)))
  = [EchoUpdating (VInt 42); EchoChanges; EchoDump [("title", VStr "a")]]
  /\ List.filter is_description
       (st_out (end_state (run_push false true file scenario_repo)))
     = [EchoUpdating (VInt 42); EchoChanges; EchoDump [("title", VStr "a")];
        EchoUpdating (VInt 42); EchoChanges;
        EchoDump [("title", VStr "Fix crash")]].
Proof. by vm_compute. Qed.

(** The record of the file [{number: 42, title: "Fix crash", self: "x"}]
    against the issue of scenario B: the lookup is made, then the call of
    [update] raises. *)
Lemma self_key_raises_witness :
  @push_one tracker no_int_of_str false
    [("number", VInt 42); ("title", VStr "Fix crash"); ("self", VStr "x")]
    (start scenario_repo)
  = (@mkState tracker scenario_repo [CallGetIssue 42] [] false, inl TypeError).
Proof.
  apply (@self_key_raises tracker no_int_of_str false
           [("number", VInt 42); ("title", VStr "Fix crash"); ("self", VStr "x")]
           (start scenario_repo) (VInt 42) 42 (mkGh 42 "Fix crash" None [] [])
           (VStr "x"));
    reflexivity.
Defined.

(** The same record without the key [self] is skipped, and with another
    key that is not a field it is skipped too. *)
Example other_unknown_key_is_skipped :
  raised (run_push false true
            [[("number", VInt 42); ("title", VStr "Fix crash"); ("self", VStr "x")]]
            scenario_repo) = Some TypeError
  /\ raised (run_push false true
               [[("number", VInt 42); ("title", VStr "Fix crash");
                 ("milestone", VStr "x")]]
               scenario_repo) = None.
Proof. by vm_compute. Qed.

(** A creation candidate with a key that is not a field. *)
Lemma unknown_key_only_on_update_witness :
  @push_one tracker no_int_of_str false
    [("title", VStr "a"); ("milestone", VStr "v1")] (start scenario_repo)
  = (start scenario_repo, inl TypeError).
Proof.
  apply (proj1 (proj2 (proj2 (@unknown_key_only_on_update tracker no_int_of_str)))
           false _ _ "milestone" (VStr "v1")).
  - reflexivity.
  - apply list_elem_of_further, list_elem_of_here.
  - reflexivity.
Defined.

(** ** Why idempotence needs its hypotheses *)

(** With [--no-update-input] the file keeps its creation candidate, and
    the second run creates the issue again. *)
Example push_twice_without_update_input :
  let file := [[("title", VStr "a")]] in
  let o1 := run_push false false file scenario_repo in
  raised o1 = None /\ input_file o1 = file /\
  mutations (run_push false false (input_file o1) (st_repo (end_state o1)))
  = [CallCreateIssue [("title", VStr "a")]].
Proof. by vm_compute. Qed.

(** A creation candidate with [labels: null]: the payload leaves the
    labels out, the new issue reports an empty list, and the second run
    finds the null of the file different from it. *)
Example push_twice_null_labels :
  let file := [[("title", VStr "a"); ("labels", VNone)]] in
  let o1 := run_push false true file scenario_repo in
  raised o1 = None /\
  input_file o1 = [[("number", VInt 43); ("title", VStr "a"); ("labels", VNone)]] /\
  mutations (run_push false true (input_file o1) (st_repo (end_state o1)))
  = [CallEdit 43 [("labels", VNone)]].
Proof. by vm_compute. Qed.

(** * Further properties *)

(** ** [comp_newline] *)

Lemma replace_crlf_view s :
  s = EmptyString \/
  (exists s', s = String CR (String LF s') /\
              replace_crlf s = String LF (replace_crlf s')) \/
  (exists c s', s = String c s' /\ replace_crlf s = String c (replace_crlf s')).
Proof.
  destruct s as [|c s]; [by left|]. right.
  destruct (decide (c = CR)) as [->|Hc].
  - destruct s as [|c' s']; [right; by exists CR, EmptyString|].
    destruct (decide (c' = LF)) as [->|Hc'].
    + left. by exists s'.
    + right. exists CR, (String c' s'). split; [done|].
      rewrite replace_crlf_cons.
      by rewrite (bool_decide_eq_false_2 _ Hc'), andb_false_r.
  - right. exists c, s. split; [done|]. by apply replace_crlf_other.
Qed.

Lemma replace_crlf_variant_aux n :
  forall a b, (String.length a <= n)%nat ->
    replace_crlf a = replace_crlf b -> eol_variant a b.
Proof.
  induction n as [|n IH]; intros a b Hlen Heq.
  - destruct a; [|simpl in Hlen; lia].
    destruct (replace_crlf_view b) as [->|[(b' & -> & Hb)|(c & b' & -> & Hb)]];
      [constructor|rewrite Hb in Heq; discriminate..].
  - destruct (replace_crlf_view a) as [->|[(a' & -> & Ha)|(c & a' & -> & Ha)]].
    + destruct (replace_crlf_view b) as [->|[(b' & -> & Hb)|(c & b' & -> & Hb)]];
        [constructor|rewrite Hb in Heq; discriminate..].
    + rewrite Ha in Heq. simpl in Hlen.
      destruct (replace_crlf_view b) as [->|[(b' & -> & Hb)|(c & b' & -> & Hb)]].
      * discriminate.
      * rewrite Hb in Heq. injection Heq as Heq.
        apply ev_char, ev_char, IH; [lia|done].
      * rewrite Hb in Heq. injection Heq as <- Heq.
        apply ev_crlf_lf, IH; [lia|done].
    + rewrite Ha in Heq. simpl in Hlen.
      destruct (replace_crlf_view b) as [->|[(b' & -> & Hb)|(c' & b' & -> & Hb)]].
      * discriminate.
      * rewrite Hb in Heq. injection Heq as -> Heq.
        apply ev_lf_crlf, IH; [lia|done].
      * rewrite Hb in Heq. injection Heq as <- Heq.
        apply ev_char, IH; [lia|done].
Qed.

(** X1.  [comp_newline] equates two strings only when they differ in
    nothing but the style of their line endings. *)
Theorem comp_newline_only_line_endings (a b : string) :
  comp_newline (VStr a) (VStr b) = true -> eol_variant a b.
Proof.
  unfold comp_newline, py_eq. simpl. intros H.
  apply bool_decide_eq_true in H. injection H as H.
  by apply (replace_crlf_variant_aux (String.length a)).
Qed.

Lemma comp_newline_only_line_endings_witness :
  eol_variant (String "a" (String CR (String LF "b"))) (String "a" (String LF "b")).
Proof. apply comp_newline_only_line_endings. reflexivity. Defined.

Lemma comp_newline_true a b : comp_newline a b = true <-> normalise a = normalise b.
Proof. unfold comp_newline, py_eq. apply bool_decide_eq_true. Qed.

(** X2.  [comp_newline] is an equivalence: reflexive, symmetric and
    transitive, on values of every shape. *)
Theorem comp_newline_equivalence :
  (forall a, comp_newline a a = true) /\
  (forall a b, comp_newline a b = comp_newline b a) /\
  (forall a b c, comp_newline a b = true -> comp_newline b c = true ->
                 comp_newline a c = true).
Proof.
  split; [apply comp_newline_refl|]. split.
  - intros a b. unfold comp_newline, py_eq. apply bool_decide_ext. split; congruence.
  - intros a b c. rewrite !comp_newline_true. congruence.
Qed.

Lemma comp_newline_equivalence_witness :
  comp_newline (VStr (String CR (String LF "x"))) (VStr (String CR (String LF "x"))) = true.
Proof.
  apply (proj2 (proj2 comp_newline_equivalence) _ (VStr (String LF "x")));
    reflexivity.
Defined.

Lemma replace_crlf_no_cr s : has_cr s = false -> replace_crlf s = s.
Proof.
  induction s as [|c s IH]; [done|]. cbn [has_cr]. intros H.
  apply orb_false_iff in H as [Hc Hs]. apply bool_decide_eq_false in Hc.
  rewrite replace_crlf_other by done. by rewrite IH.
Qed.

(** X3.  On strings without a carriage return [comp_newline] is plain
    string equality: two different texts with Unix line endings never
    compare equal. *)
Theorem comp_newline_no_cr (a b : string) :
  has_cr a = false -> has_cr b = false ->
  comp_newline (VStr a) (VStr b) = true <-> a = b.
Proof.
  intros Ha Hb. rewrite comp_newline_true. simpl.
  rewrite !replace_crlf_no_cr by done. split; congruence.
Qed.

Lemma comp_newline_no_cr_witness :
  comp_newline (VStr (String "a" (String LF "b"))) (VStr (String "a" (String LF "c"))) = true
  <-> String "a" (String LF "b") = String "a" (String LF "c").
Proof. apply comp_newline_no_cr; reflexivity. Defined.

(** ** [Issue.update], [to_dict] and the constructor *)

(** X4.  [update] leaves alone every field that is not a key of the
    keyword dictionary, and it only ever appends to the dirty list: the
    names that were dirty stay, in place, and each name added is a field
    name among the keys. *)
Theorem update_frame self (kwargs : dict) :
  (forall k, k ∉ kwargs.*1 -> getattr (update self kwargs) k = getattr self k) /\
  (exists l, dirty (update self kwargs) = dirty self ++ l /\
             forall x, x ∈ l -> x ∈ kwargs.*1 /\ is_field x = true).
Proof.
  revert self. induction kwargs as [|[k' v'] rest IH]; intros self.
  - split; [done|]. exists []. split; [by rewrite app_nil_r|].
    intros x Hx. by apply elem_of_nil in Hx.
  - rewrite update_cons.
    destruct (is_field k' && negb (comp_newline (getattr self k') v')) eqn:Hc.
    + destruct (IH (dirty_append (setattr self k' v') k')) as [Hget [l [Hd Hl]]].
      split.
      * intros k Hk. rewrite fmap_cons in Hk. apply not_elem_of_cons in Hk as [Hne Hk].
        rewrite (Hget k Hk), getattr_dirty_append. apply getattr_setattr_ne.
        simpl in Hne. congruence.
      * exists (k' :: l). split.
        -- rewrite Hd. simpl. rewrite dirty_setattr. by rewrite <- app_assoc.
        -- intros x Hx. rewrite fmap_cons. apply elem_of_cons in Hx as [->|Hx].
           ++ split; [apply list_elem_of_here|]. by apply andb_true_iff in Hc as [? _].
           ++ destruct (Hl x Hx). split; [by apply list_elem_of_further|done].
    + destruct (IH self) as [Hget [l [Hd Hl]]]. split.
      * intros k Hk. rewrite fmap_cons in Hk. apply not_elem_of_cons in Hk as [_ Hk].
        by apply Hget.
      * exists l. split; [done|]. intros x Hx. destruct (Hl x Hx).
        rewrite fmap_cons. split; [by apply list_elem_of_further|done].
Qed.

Lemma update_frame_witness :
  getattr (update (from_github (mkGh 42 "x" (Some "text") [] []))
                  [("title", VStr "a"); ("milestone", VStr "v1")]) "body"
  = VStr "text".
Proof.
  rewrite (proj1 (update_frame _ _)); [reflexivity|].
  apply (bool_decide_unpack _). reflexivity.
Defined.

Lemma update_agrees_aux self (kwargs : dict) k v :
  NoDup kwargs.*1 -> (k, v) ∈ kwargs -> is_field k = true ->
  comp_newline (getattr (update self kwargs) k) v = true.
Proof.
  intros Hnd Hin Hk. rewrite getattr_update, (elem_dict_get _ _ _ Hnd Hin) by done.
  destruct (changed self (k, v)) eqn:Hc; [apply comp_newline_refl|].
  unfold changed in Hc. simpl in Hc. rewrite Hk in Hc. simpl in Hc.
  by apply negb_false_iff in Hc.
Qed.

(** X5.  After [update] with a mapping, every field named by the mapping
    holds a value equal to the given one under [comp_newline]: the
    tracker agrees with the candidate.  The field holds the given value
    itself, or still the value it had. *)
Theorem update_agrees self (kwargs : dict) k v :
  NoDup kwargs.*1 -> (k, v) ∈ kwargs -> is_field k = true ->
  comp_newline (getattr (update self kwargs) k) v = true /\
  (getattr (update self kwargs) k = v \/
   getattr (update self kwargs) k = getattr self k).
Proof.
  intros Hnd Hin Hk. rewrite getattr_update, (elem_dict_get _ _ _ Hnd Hin) by done.
  destruct (changed self (k, v)) eqn:Hc.
  - split; [apply comp_newline_refl|by left].
  - split; [|by right]. unfold changed in Hc. simpl in Hc. rewrite Hk in Hc. simpl in Hc.
    by apply negb_false_iff in Hc.
Qed.

Lemma update_agrees_witness :
  comp_newline
    (getattr (update (from_github (mkGh 42 "x" None [] []))
                     [("title", VStr "a"); ("body", VStr "b")]) "body")
    (VStr "b") = true.
Proof.
  apply update_agrees.
  - by apply (bool_decide_unpack _).
  - apply list_elem_of_further, list_elem_of_here.
  - reflexivity.
Defined.

Lemma update_same self (kwargs : dict) :
  (forall k v, (k, v) ∈ kwargs -> is_field k = true ->
     comp_newline (getattr self k) v = true) ->
  update self kwargs = self.
Proof.
  induction kwargs as [|[k v] rest IH]; intros Hsame; [done|].
  rewrite update_cons. destruct (is_field k) eqn:Hk; simpl.
  - rewrite (Hsame k v) by (done || apply list_elem_of_here). simpl.
    apply IH. intros k' v' Hin. apply Hsame. by apply list_elem_of_further.
  - apply IH. intros k' v' Hin. apply Hsame. by apply list_elem_of_further.
Qed.

(** X6.  [update] is idempotent: a second [update] with the same mapping
    changes no field and appends nothing to the dirty list. *)
Theorem update_twice self (kwargs : dict) :
  NoDup kwargs.*1 -> update (update self kwargs) kwargs = update self kwargs.
Proof.
  intros Hnd. apply update_same. intros k v Hin Hk. by apply update_agrees_aux.
Qed.

Lemma update_twice_witness :
  update (update (from_github (mkGh 42 "x" None [] []))
                 [("title", VStr "a"); ("body", VStr "b")])
         [("title", VStr "a"); ("body", VStr "b")]
  = update (from_github (mkGh 42 "x" None [] []))
           [("title", VStr "a"); ("body", VStr "b")].
Proof. apply update_twice. by apply (bool_decide_unpack _). Defined.

Lemma asdict_keys self : (asdict self).*1 = field_names.
Proof. done. Qed.

Lemma sublist_filter_fst (P : string * value -> bool) (d : dict) :
  (List.filter P d).*1 `sublist_of` d.*1.
Proof.
  induction d as [|kv d IH]; [done|]. simpl. destruct (P kv); simpl.
  - by apply sublist_skip.
  - by apply sublist_cons.
Qed.

(** X7.  [_dirty_dict] is a mapping whatever the dirty list holds: its
    keys are pairwise distinct, follow the order of the fields, and are
    the field names found in the dirty list, so a name that was appended
    twice is sent once. *)
Theorem dirty_dict_keys self :
  NoDup (_dirty_dict self).*1 /\
  (_dirty_dict self).*1 `sublist_of` field_names /\
  (forall k, k ∈ (_dirty_dict self).*1 <-> is_field k = true /\ k ∈ dirty self).
Proof.
  assert (Hsub : (_dirty_dict self).*1 `sublist_of` field_names).
  { unfold _dirty_dict, to_dict. rewrite <- (asdict_keys self).
    apply sublist_filter_fst. }
  split; [|split; [done|]].
  - eapply sublist_NoDup; [|exact Hsub]. by apply (bool_decide_unpack _).
  - intros k. rewrite list_elem_of_fmap. split.
    + intros [[k' v] [-> Hin]]. by apply dirty_dict_elem in Hin as (? & ? & _).
    + intros [Hk Hd]. exists (k, getattr self k). split; [done|].
      by apply dirty_dict_elem.
Qed.

Example dirty_dict_sent_once :
  (_dirty_dict (update (update (from_github (mkGh 42 "x" None [] []))
                               [("title", VStr "a")])
                       [("title", VStr "b")])).*1 = ["title"].
Proof. reflexivity. Qed.

Lemma to_dict_fields self skip k v : (k, v) ∈ to_dict self skip -> is_field k = true.
Proof.
  destruct skip.
  - intros H. by apply to_dict_skip_elem in H as [? _].
  - unfold to_dict. rewrite asdict_elem, is_field_true. tauto.
Qed.

Lemma dict_default_to_dict self skip k :
  is_field k = true -> dict_default k (to_dict self skip) = getattr self k.
Proof.
  intros Hk. unfold dict_default. destruct skip.
  - rewrite dict_get_to_dict_skip by done. by destruct (getattr self k).
  - unfold to_dict. by destruct (is_field_cases k Hk) as [->|[->|[->|[->| ->]]]].
Qed.

(** X8.  Round trip between an [Issue] and its dictionary: the
    constructor applied to [to_dict], with or without [skip_missing],
    accepts every key and gives back the same five fields, with nothing
    dirty. *)
Theorem to_dict_round_trip self skip :
  Issue_init (to_dict self skip) = inr (fresh self).
Proof.
  unfold Issue_init.
  replace (forallb (fun kv => is_field (fst kv)) (to_dict self skip)) with true.
  - rewrite !dict_default_to_dict by done. by destruct self.
  - symmetry. apply forallb_forall. intros [k v] Hin.
    apply list_elem_of_In in Hin. by apply to_dict_fields in Hin.
Qed.

Section Identifier.

Context `{R : Remote} `{B : Builtins}.

Implicit Types (s : pstate) (issue : dict).

(** X9.  An identifier written as a string in a record of the file (a
    mapping without a key [self], so that the call of [update] goes
    through): [int] converts it for the lookup, but [update] compares the
    string with the integer of the remote issue, so [number] is marked
    dirty and the [edit] call carries the [number] keyword with the
    string. *)
Theorem string_number_is_sent issue s str n g :
  NoDup issue.*1 -> dict_get "self" issue = None ->
  dict_get "number" issue = Some (VStr str) -> int_of_str str = Some n ->
  get_issue (st_repo s) n = inr g ->
  "number" ∈ dirty (update (from_github g) issue) /\
  exists payload,
    st_calls (fst (push_one false issue s))
    = st_calls s ++ [CallGetIssue n; CallEdit (gh_number g) payload] /\
    ("number", VStr str) ∈ payload.
Proof.
  intros Hnd Hs Hn Hi Hg.
  assert (Hd : "number" ∈ dirty (update (from_github g) issue)).
  { apply dirty_update_elem; [done..|]. exists (VStr str).
    split; [by apply dict_get_Some_elem|done]. }
  split; [done|]. exists (_dirty_dict (update (from_github g) issue)). split.
  - rewrite (push_one_update issue s (VStr str) n g); try done.
    + by destruct (edit _ _ _).
    + simpl. by rewrite Hi.
    + intros Hnil. rewrite Hnil in Hd. by apply elem_of_nil in Hd.
  - apply dirty_dict_elem. split; [done|]. split; [done|].
    rewrite getattr_update, Hn by done. done.
Qed.

(** X10.  An integer identifier that the remote answers under the same
    number is never marked dirty, so no [edit] payload carries
    [number]. *)
Theorem integer_number_is_kept issue n g :
  NoDup issue.*1 ->
  dict_get "number" issue = Some (VInt n) -> gh_number g = n ->
  ("number" ∉ dirty (update (from_github g) issue)) /\
  ("number" ∉ (_dirty_dict (update (from_github g) issue)).*1).
Proof.
  intros Hnd Hn Hg.
  assert (Hd : "number" ∉ dirty (update (from_github g) issue)).
  { intros Hd. apply dirty_update_elem in Hd as [v [Hin Hc]]; [|done..].
    rewrite (elem_dict_get _ _ _ Hnd Hin) in Hn. injection Hn as ->.
    apply changed_true in Hc as [_ Hc].
    change (getattr (from_github g) "number") with (VInt (gh_number g)) in Hc.
    rewrite Hg, comp_newline_refl in Hc. done. }
  split; [done|]. intros Hin. apply Hd.
  apply list_elem_of_fmap in Hin as [[k v] [Hk Hin]]. simpl in Hk. subst k.
  by apply dirty_dict_elem in Hin as (_ & ? & _).
Qed.

End Identifier.

(** ** What a run of [push] calls and writes *)

Lemma has_number_Some (issue : dict) num :
  dict_get "number" issue = Some num -> has_number issue = true.
Proof. intros H. unfold has_number. rewrite H. by apply bool_decide_eq_true_2. Qed.

Lemma has_number_None (issue : dict) :
  dict_get "number" issue = None -> has_number issue = false.
Proof.
  intros H. unfold has_number. rewrite H. apply bool_decide_eq_false_2.
  intros Hc. by apply Hc.
Qed.

Section RunFacts.

Context `{R : Remote} `{B : Builtins}.

Implicit Types (s : pstate) (issue : dict) (issues : list dict).

Ltac number_case :=
  match goal with
  | Hn : dict_get "number" _ = Some _ |- _ => rewrite (has_number_Some _ _ Hn)
  | Hn : dict_get "number" _ = None |- _ => rewrite (has_number_None _ Hn)
  end.

(** The calls one record adds: at most a lookup and an [edit] for a record
    with a number, at most a [create_issue] for a record without. *)
Lemma step_calls dry issue s s' res :
  push_one dry issue s = (s', res) ->
  exists new,
    st_calls s' = st_calls s ++ new /\
    (List.length new <= 2)%nat /\
    (List.length (List.filter is_mutation new) <= 1)%nat /\
    (has_number issue = true -> List.filter is_create new = []) /\
    (has_number issue = false -> Forall (fun c => is_create c = true) new).
Proof.
  intros H. apply push_one_inv in H.
  destruct H; simpl;
    (first [ eexists; split; [reflexivity|]
           | exists []; split; [by rewrite app_nil_r|] ]);
    number_case; simpl; repeat split; try lia; try done;
    intros _; by repeat constructor.
Qed.

Lemma loop_calls dry issues s s' res :
  push_loop dry issues s = (s', res) ->
  exists new,
    st_calls s' = st_calls s ++ new /\
    (List.length new <= 2 * List.length issues)%nat /\
    (List.length (List.filter is_mutation new) <= List.length issues)%nat /\
    (Forall (fun i => has_number i = true) issues -> List.filter is_create new = []) /\
    (Forall (fun i => has_number i = false) issues ->
     Forall (fun c => is_create c = true) new).
Proof.
  revert s s' res. induction issues as [|issue issues IH]; intros s s' res H.
  - simpl in H. injection H as <- _. exists []. rewrite app_nil_r.
    repeat split; simpl; try lia; done.
  - rewrite push_loop_cons in H.
    destruct (push_one dry issue s) as [s1 [e|issue1]] eqn:H1.
    + injection H as <- _.
      destruct (step_calls _ _ _ _ _ H1) as (new & Hc & Hl & Hm & Hu & Hcr).
      exists new. simpl. repeat split; try lia; try done.
      * intros Hall. apply Forall_cons in Hall as [? _]. by apply Hu.
      * intros Hall. apply Forall_cons in Hall as [? _]. by apply Hcr.
    + destruct (step_calls _ _ _ _ _ H1) as (new1 & Hc1 & Hl1 & Hm1 & Hu1 & Hcr1).
      assert (Hrest : exists s2 res2, push_loop dry issues s1 = (s2, res2) /\ s' = s2).
      { destruct (push_loop dry issues s1) as [s2 [e|rest']] eqn:H2;
          injection H as <- _; eauto. }
      destruct Hrest as (s2 & res2 & H2 & ->).
      destruct (IH _ _ _ H2) as (new2 & Hc2 & Hl2 & Hm2 & Hu2 & Hcr2).
      exists (new1 ++ new2). rewrite Hc2, Hc1, <- app_assoc.
      rewrite List.filter_app, !length_app. simpl.
      repeat split; try lia.
      * intros Hall. apply Forall_cons in Hall as [? ?].
        rewrite List.filter_app. by rewrite Hu1, Hu2.
      * intros Hall. apply Forall_cons in Hall as [? ?].
        apply Forall_app. split; [by apply Hcr1|by apply Hcr2].
Qed.

Lemma step_added dry issue s s' res :
  push_one dry issue s = (s', res) ->
  new_issues_added s' = true ->
  new_issues_added s = true \/
  (dry = false /\ exists p, CallCreateIssue p ∈ st_calls s').
Proof.
  intros H. apply push_one_inv in H.
  destruct H; simpl; try (by left); intros _. right. split; [done|].
  eexists. apply elem_of_app. right. apply list_elem_of_here.
Qed.

Lemma loop_added dry issues s s' res :
  push_loop dry issues s = (s', res) ->
  new_issues_added s' = true ->
  new_issues_added s = true \/
  (dry = false /\ exists p, CallCreateIssue p ∈ st_calls s').
Proof.
  revert s s' res. induction issues as [|issue issues IH]; intros s s' res H Hs'.
  - simpl in H. injection H as <- _. by left.
  - rewrite push_loop_cons in H.
    destruct (push_one dry issue s) as [s1 [e|issue1]] eqn:H1.
    + injection H as <- _. by eapply step_added.
    + assert (Hrest : exists s2 res2, push_loop dry issues s1 = (s2, res2) /\ s' = s2).
      { destruct (push_loop dry issues s1) as [s2 [e|rest']] eqn:H2;
          injection H as <- _; eauto. }
      destruct Hrest as (s2 & res2 & H2 & ->).
      destruct (IH _ _ _ H2 Hs') as [Hs1|Hright]; [|by right].
      destruct (step_added _ _ _ _ _ H1 Hs1) as [?|[Hdry [p Hp]]]; [by left|].
      right. split; [done|]. exists p.
      destruct (loop_calls _ _ _ _ _ H2) as (new & -> & _).
      apply elem_of_app. by left.
Qed.

Lemma step_numbered dry issue s s' issue' :
  push_one dry issue s = (s', inr issue') ->
  numbered issue issue' /\ (dry = false -> has_number issue' = true).
Proof.
  intros H. apply push_one_inv in H.
  inversion H; subst; split; try (by left); try done;
    try (intros _; by eapply has_number_Some);
    right; split; [done|]; by eexists.
Qed.

Lemma loop_numbered dry issues s s' issues' :
  push_loop dry issues s = (s', inr issues') ->
  Forall2 numbered issues issues' /\
  (dry = false -> Forall (fun i => has_number i = true) issues').
Proof.
  revert s s' issues'. induction issues as [|issue issues IH]; intros s s' issues' H.
  - simpl in H. injection H as _ <-. split; [constructor|]. intros _. constructor.
  - rewrite push_loop_cons in H.
    destruct (push_one dry issue s) as [s1 [e|issue1]] eqn:H1; [done|].
    destruct (push_loop dry issues s1) as [s2 [e|rest']] eqn:H2; [done|].
    injection H as _ <-.
    destruct (step_numbered _ _ _ _ _ H1) as [Hn1 Hh1].
    destruct (IH _ _ _ H2) as [Hn2 Hh2]. split.
    + by constructor.
    + intros Hdry. constructor; [by apply Hh1|by apply Hh2].
Qed.

End RunFacts.

Section RunTheorems.

Context `{R : Remote} `{B : Builtins}.

Implicit Types (s : pstate) (issue : dict) (issues : list dict) (r : repo).

Lemma push_calls dry update_input issues r :
  exists s res,
    push_loop dry issues (mkState r [] [] false) = (s, res) /\
    st_calls (end_state (push dry update_input issues r)) = st_calls s /\
    new_issues_added (end_state (push dry update_input issues r))
    = new_issues_added s.
Proof.
  unfold push. destruct (push_loop dry issues _) as [s [e|issues']] eqn:Hl.
  - by exists s, (inl e).
  - exists s, (inr issues'). split; [done|].
    destruct (new_issues_added s) eqn:Hs; [destruct update_input|]; simpl;
      by rewrite ?Hs.
Qed.

(** X11.  Each record costs at most one lookup and one mutating call: a
    run makes at most twice as many calls as the file has records, and at
    most as many [edit] and [create_issue] calls as it has records. *)
Theorem push_call_bounds dry update_input issues r :
  let o := push dry update_input issues r in
  (List.length (st_calls (end_state o)) <= 2 * List.length issues)%nat /\
  (List.length (mutations o) <= List.length issues)%nat.
Proof.
  intros o. unfold o, mutations.
  destruct (push_calls dry update_input issues r) as (s & res & Hl & -> & _).
  destruct (loop_calls _ _ _ _ _ Hl) as (new & -> & Hlen & Hmut & _).
  simpl. done.
Qed.

(** X12.  A file in which every record has a [number] key never creates
    an issue and is never written; a file in which no record has one makes
    no lookup and no [edit], only [create_issue] calls. *)
Theorem push_paths dry update_input issues r :
  let o := push dry update_input issues r in
  (Forall (fun i => has_number i = true) issues ->
   List.filter is_create (st_calls (end_state o)) = [] /\
   file_writes o = 0%nat /\ input_file o = issues) /\
  (Forall (fun i => has_number i = false) issues ->
   Forall (fun c => is_create c = true) (st_calls (end_state o))).
Proof.
  intros o. unfold o.
  destruct (push_calls dry update_input issues r) as (s & res & Hl & Hcalls & _).
  destruct (loop_calls _ _ _ _ _ Hl) as (new & Hnew & _ & _ & Hu & Hcr).
  simpl in Hnew. split.
  - intros Hall. rewrite Hcalls, Hnew. split; [by apply Hu|].
    unfold push. rewrite Hl. destruct res as [e|issues']; [done|].
    destruct (new_issues_added s) eqn:Hs; [|done].
    destruct (loop_added _ _ _ _ _ Hl Hs) as [?|[_ [p Hp]]]; [done|].
    rewrite Hnew in Hp. exfalso.
    assert (Hin : CallCreateIssue p ∈ List.filter is_create new)
      by by apply elem_of_List_filter.
    rewrite (Hu Hall) in Hin. by apply elem_of_nil in Hin.
  - intros Hall. rewrite Hcalls, Hnew. by apply Hcr.
Qed.

(** X13.  The input file is written at most once, and exactly when the
    run ends without an exception, [update_input] is set and an issue was
    added; an issue is only added outside a dry run, by a [create_issue]
    call.  A run that does not write the file leaves its content as it
    was, whatever it did on the remote. *)
Theorem file_written_iff dry update_input issues r :
  let o := push dry update_input issues r in
  (file_writes o = 1%nat <->
   raised o = None /\ update_input = true /\ new_issues_added (end_state o) = true) /\
  (new_issues_added (end_state o) = true ->
   dry = false /\ exists p, CallCreateIssue p ∈ st_calls (end_state o)) /\
  (file_writes o <> 1%nat -> file_writes o = 0%nat /\ input_file o = issues).
Proof.
  intros o. split; [|split].
  - unfold o, push. destruct (push_loop dry issues _) as [s [e|issues']]; simpl.
    + split; [done|]. by intros [? _].
    + destruct (new_issues_added s) eqn:Hs; [destruct update_input|]; simpl;
        rewrite ?Hs; split; try done; by intros (_ & ? & ?).
  - unfold o.
    destruct (push_calls dry update_input issues r) as (s & res & Hl & -> & ->).
    intros Hs. by destruct (loop_added _ _ _ _ _ Hl Hs) as [?|?].
  - unfold o, push. destruct (push_loop dry issues _) as [s [e|issues']]; simpl;
      [done|]. by destruct (new_issues_added s); [destruct update_input|].
Qed.

(** X14.  Whatever the run, every record of the file afterwards is the
    record that was there, or that record with the assigned [number] put
    in front when it had none: no record is dropped, reordered or
    otherwise changed. *)
Theorem rewrite_keeps_records dry update_input issues r :
  Forall2 numbered issues (input_file (push dry update_input issues r)).
Proof.
  assert (Hsame : Forall2 numbered issues issues).
  { induction issues; constructor; [by left|done]. }
  unfold push. destruct (push_loop dry issues _) as [s [e|issues']] eqn:Hl;
    [done|].
  destruct (new_issues_added s); [destruct update_input|]; simpl; try done.
  by apply (loop_numbered _ _ _ _ _ Hl).
Qed.

(** X15.  After a run that is not a dry run, ends without an exception
    and has [update_input] set, every record of the file has a [number]
    key: the whole file has become update candidates. *)
Theorem push_identifies_all issues r :
  raised (push false true issues r) = None ->
  Forall (fun i => has_number i = true) (input_file (push false true issues r)).
Proof.
  unfold push. destruct (push_loop false issues _) as [s [e|issues']] eqn:Hl;
    [done|]. intros _.
  destruct (loop_numbered _ _ _ _ _ Hl) as [_ Hall].
  destruct (new_issues_added s) eqn:Hs; simpl; [by apply Hall|].
  rewrite <- (loop_unchanged _ _ _ _ _ Hl Hs). by apply Hall.
Qed.

(** X16.  An exception at a record ends the run there: with the records
    before it processed, the outcome is the state and the exception of
    that record, the file is not written, and the records after it play
    no part. *)
Theorem push_stops_at_exception dry update_input pre issue post r s1 pre' s2 e :
  push_loop dry pre (mkState r [] [] false) = (s1, inr pre') ->
  push_one dry issue s1 = (s2, inl e) ->
  push dry update_input (pre ++ issue :: post) r
  = mkOutcome s2 (Some e) (pre ++ issue :: post) 0.
Proof.
  intros Hpre Hone. unfold push.
  by rewrite (push_loop_prefix dry pre issue post _ s1 pre' s2 e Hpre Hone).
Qed.

End RunTheorems.

(** ** [pull], and [push] after [pull] *)

Lemma plain_to_dict_yaml self skip :
  plain (to_dict_yaml self skip) = to_dict self skip.
Proof.
  unfold plain, to_dict_yaml. rewrite List.map_map. simpl.
  induction (to_dict self skip) as [|[k v] d IH]; [done|]. simpl. by rewrite IH.
Qed.

Lemma list_to_yaml_lookup (issues : list Issue) i :
  list_to_yaml issues !! i
  = (fun issue =>
       mkItem (if bool_decide (1 <= i < List.length issues)%nat
               then Some (String LF EmptyString) else None)
              (to_dict_yaml issue false)) <$> issues !! i.
Proof.
  unfold list_to_yaml. cbv zeta. rewrite list_lookup_imap.
  change (List.map (fun issue => to_dict_yaml issue false) issues)
    with ((fun issue => to_dict_yaml issue false) <$> issues).
  rewrite list_lookup_fmap, length_fmap. by destruct (issues !! i).
Qed.

Lemma list_to_yaml_length (issues : list Issue) :
  List.length (list_to_yaml issues) = List.length issues.
Proof. unfold list_to_yaml. cbv zeta. by rewrite length_imap, length_map. Qed.

Lemma plain_items_list_to_yaml (issues : list Issue) :
  plain_items (list_to_yaml issues)
  = List.map (fun issue => to_dict issue false) issues.
Proof.
  apply list_eq. intros i. unfold plain_items.
  change (List.map (fun it => plain (item_fields it)) (list_to_yaml issues))
    with ((fun it => plain (item_fields it)) <$> list_to_yaml issues).
  change (List.map (fun issue => to_dict issue false) issues)
    with ((fun issue => to_dict issue false) <$> issues).
  rewrite !list_lookup_fmap, list_to_yaml_lookup.
  destruct (issues !! i) as [issue|]; [|done]. reflexivity.
Qed.

Section Pull.

Context `{S : Shell} `{B : Builtins} {G : Listing} {O : Output}.

Implicit Types (r : repo) (gs : list ghissue) (st : gstate).

(** X17.  [pull] opens the output file only after [resolve_repo] and the
    listing have returned: when the file was opened, both had succeeded.
    With both and the opening successful, what [pull] gives to [yaml.dump]
    is one mapping per listed issue, in the order of the listing: the five
    fields in their order, none skipped (an issue without a body gets a
    null [body]), the [number] being that of the issue, with a blank line
    set in front of every mapping but the first; it is the content of the
    file if the dump returns, and if the dump raises, [pull] raises the
    same. *)
Theorem pull_records repo_arg st :
  (output_opened (pull repo_arg st) = true ->
   exists st1 r gs,
     resolve_repo repo_arg st = (st1, inr r) /\ get_issues r = inr gs /\
     open_output = inr tt) /\
  (forall st1 r gs,
     resolve_repo repo_arg st = (st1, inr r) -> get_issues r = inr gs ->
     open_output = inr tt ->
     let items := list_to_yaml (List.map from_github gs) in
     (dump items = inr tt ->
      pull repo_arg st = mkPull st1 None true (Some items)) /\
     (forall e, dump items = inl e ->
      pull repo_arg st = mkPull st1 (Some e) true None) /\
     List.length items = List.length gs /\
     forall i g, gs !! i = Some g ->
       exists it,
         items !! i = Some it /\
         plain (item_fields it) = asdict (from_github g) /\
         (item_fields it).*1 = field_names /\
         dict_get "number" (plain (item_fields it)) = Some (VInt (gh_number g)) /\
         comment_before it
         = if bool_decide (i = 0%nat) then None else Some (String LF EmptyString)).
Proof.
  unfold pull. split.
  - destruct (resolve_repo repo_arg st) as [st1 [e|r]]; [done|].
    destruct (get_issues r) as [e|gs] eqn:Hgs; [done|].
    destruct open_output as [e|[]] eqn:Ho; [done|].
    intros _. exists st1, r, gs. repeat split; done.
  - intros st1 r gs Hr Hgs Ho. rewrite Hr, Hgs, Ho. cbv zeta.
    split; [|split; [|split]].
    + by intros ->.
    + by intros e ->.
    + by rewrite list_to_yaml_length, length_map.
    + intros i g Hg. rewrite list_to_yaml_lookup.
      change (List.map from_github gs) with (from_github <$> gs).
      rewrite list_lookup_fmap, Hg. simpl. eexists. split; [done|]. simpl.
      split; [apply (plain_to_dict_yaml _ false)|]. split; [done|]. split; [done|].
      rewrite length_fmap. apply lookup_lt_Some in Hg.
      repeat case_bool_decide; try done; lia.
Qed.

Lemma comp_newline_int n v : comp_newline (VInt n) v = true -> v = VInt n.
Proof.
  rewrite comp_newline_true. by destruct v; simpl; intros [= <-].
Qed.

Lemma same_content_synced r g (d' : dict) :
  get_issue r (gh_number g) = inr g ->
  same_content (asdict (from_github g)) d' -> synced r d'.
Proof.
  intros Hget Hsame. unfold same_content, asdict in Hsame. simpl in Hsame.
  repeat (apply Forall2_cons_inv_l in Hsame as ([? ?] & ? & [? ?] & Hsame & ->)).
  apply Forall2_nil_inv_l in Hsame as ->. simpl in *. subst.
  match goal with H : comp_newline (getattr _ "number") _ = true |- _ =>
    apply comp_newline_int in H; subst end.
  exists (gh_number g), g. split; [done|]. split; [done|]. split; [|done].
  rewrite update_same; [done|]. intros k v Hin _.
  repeat (apply elem_of_cons in Hin as [[= -> ->]|Hin];
          [done || apply comp_newline_refl|]).
  by apply elem_of_nil in Hin.
Qed.

(** X18.  [push] of what [pull] dumped.  Let [pull] have dumped its
    sequence for a remote on which every listed issue is found under its
    number, and let the records that [push] loads have, key for key, the
    dumped values up to [comp_newline] (the assumption on what writing and
    reading the file does to them).  Then [push] to that remote makes no
    [edit] and no [create_issue] call, echoes nothing, and writes
    nothing. *)
Theorem push_after_pull dry update_input repo_arg st st1 r gs items
    (file : list dict) :
  resolve_repo repo_arg st = (st1, inr r) ->
  get_issues r = inr gs ->
  (forall g, g ∈ gs -> get_issue r (gh_number g) = inr g) ->
  output_dumped (pull repo_arg st) = Some items ->
  Forall2 same_content (plain_items items) file ->
  let o := push dry update_input file r in
  raised o = None /\ mutations o = [] /\ st_out (end_state o) = [] /\
  st_repo (end_state o) = r /\ file_writes o = 0%nat /\ input_file o = file.
Proof.
  intros Hres Hlist Hfound Hpull Hfile.
  assert (Hsync : Forall (synced r) file).
  { unfold pull in Hpull. rewrite Hres, Hlist in Hpull.
    assert (Hitems : items = list_to_yaml (List.map from_github gs)).
    { destruct open_output as [e|[]]; [done|].
      destruct (dump _) as [e|[]]; [done|]. simpl in Hpull. congruence. }
    subst items. clear Hpull Hlist Hres.
    rewrite plain_items_list_to_yaml, List.map_map in Hfile.
    unfold to_dict in Hfile.
    revert file Hfile. induction gs as [|g gs IH]; intros file Hfile.
    - apply Forall2_nil_inv_l in Hfile as ->. constructor.
    - simpl in Hfile.
      apply Forall2_cons_inv_l in Hfile as (d' & file' & Hd & Hrest & ->).
      constructor.
      + apply (same_content_synced r g); [|done]. apply Hfound, list_elem_of_here.
      + apply IH; [|done]. intros g' Hg'. by apply Hfound, list_elem_of_further. }
  destruct (loop_noop dry file (mkState r [] [] false) Hsync) as (calls & Hl & Hc).
  unfold push, mutations. cbv zeta. rewrite Hl. simpl. by rewrite Hc.
Qed.

End Pull.

(** ** Resolving the repository *)

Lemma drop_last_app s c : drop_last (s ++ String c EmptyString)%string = s.
Proof.
  induction s as [|c' s IH]; [done|].
  change (String c' s ++ String c EmptyString)%string
    with (String c' (s ++ String c EmptyString)%string).
  destruct (s ++ String c EmptyString)%string as [|a s0] eqn:Hs.
  - by destruct s.
  - change (drop_last (String c' (String a s0)))
      with (String c' (drop_last (String a s0))).
    by rewrite IH.
Qed.

Section ResolveFacts.

Context `{S : Shell}.

Implicit Types (st : gstate).

(** X19.  [gh()] keeps its handle: once a call has returned a handle,
    that handle is stored in [_gh], and every later call returns it
    without running a command and without changing the state.  A call
    that raises stores nothing, so the next call runs the command
    again. *)
Theorem gh_keeps_handle st st' :
  (forall h, gh st = (st', inr h) -> _gh st' = Some h /\ gh st' = (st', inr h)) /\
  (forall e, gh st = (st', inl e) ->
     _gh st' = None /\ commands st' = commands st ++ ["gh auth token"]).
Proof.
  unfold gh at 1 3, run_command. destruct (_gh st) as [h0|] eqn:Hst.
  - split.
    + intros h [= <- <-]. split; [done|]. unfold gh. by rewrite Hst.
    + intros e [=].
  - destruct (check_output "gh auth token") as [e0|out]; simpl.
    + split; [intros h [=]|]. by intros e [= <- _].
    + destruct (Github (drop_last out)) as [e1|h1]; split.
      * intros h [=].
      * by intros e [= <- _].
      * by intros h [= <- <-].
      * intros e [=].
Qed.

(** X20.  The token given to [github.Github] is the output of
    [gh auth token] without its last character: for an output that ends
    in a newline, the token is the text before the newline.  [gh()]
    stores and returns the handle the constructor gives for it; if the
    constructor raises, [gh()] raises the same and stores nothing. *)
Theorem gh_token st token c :
  _gh st = None ->
  check_output "gh auth token" = inr (token ++ String c EmptyString)%string ->
  gh st = match Github token with
          | inr h => (mkG (Some h) (commands st ++ ["gh auth token"]), inr h)
          | inl e => (mkG None (commands st ++ ["gh auth token"]), inl e)
          end.
Proof.
  intros Hst Hout. unfold gh, run_command. rewrite Hst, Hout. simpl.
  rewrite drop_last_app. by destruct (Github token).
Qed.

(** X21.  With a repository name given, [resolve_repo] never runs
    [gh repo view]: it passes the name to [get_repo] on the handle of
    [gh()], and the only command it can run is [gh auth token], when no
    handle is stored yet.  Without a name, [gh repo view] runs first, and
    if it or the reading of its output raises, [gh()] is not called: the
    stored handle is left as it was and no token is asked for. *)
Theorem resolve_repo_commands st :
  (forall name,
     (forall h, _gh st = Some h ->
        resolve_repo (Some name) st = (st, get_repo h name)) /\
     (_gh st = None ->
        commands (fst (resolve_repo (Some name) st))
        = commands st ++ ["gh auth token"])) /\
  (forall e, snd (current_repo st) = inl e ->
     resolve_repo None st
     = (mkG (_gh st) (commands st ++ ["gh repo view --json nameWithOwner"]),
        inl e)).
Proof.
  split.
  - intros name. split.
    + intros h Hst. unfold resolve_repo, gh. by rewrite Hst.
    + intros Hst. unfold resolve_repo, gh, run_command. rewrite Hst.
      destruct (check_output "gh auth token") as [e|out]; [done|].
      simpl. by destruct (Github (drop_last out)).
  - intros e. unfold resolve_repo, current_repo, run_command. simpl.
    destruct (check_output _) as [e0|out]; simpl; [by intros [= ->]|].
    by intros ->.
Qed.

End ResolveFacts.

(** ** Examples for the further properties *)

Lemma string_number_is_sent_witness :
  "number" ∈ dirty (update (from_github (mkGh 42 "Fix crash" None [] []))
                           [("number", VStr "42"); ("title", VStr "Fix crash")]).
Proof.
  apply (@string_number_is_sent tracker int_of_42
           [("number", VStr "42"); ("title", VStr "Fix crash")]
           (start scenario_repo) "42" 42 (mkGh 42 "Fix crash" None [] []));
    [by apply (bool_decide_unpack _)|reflexivity..].
Defined.

Lemma integer_number_is_kept_witness :
  "number" ∉ dirty (update (from_github (mkGh 42 "Fix crash" None [] []))
                           [("number", VInt 42); ("title", VStr "Fix crash!!")]).
Proof.
  apply (integer_number_is_kept
           [("number", VInt 42); ("title", VStr "Fix crash!!")] 42
           (mkGh 42 "Fix crash" None [] []));
    [by apply (bool_decide_unpack _)|reflexivity..].
Defined.

Lemma push_paths_witness :
  List.filter is_create
    (st_calls (end_state
       (run_push false true [[("number", VInt 42); ("title", VStr "Fix crash!!")]]
                 scenario_repo))) = [].
Proof.
  apply (proj1 (@push_paths tracker no_int_of_str false true
                  [[("number", VInt 42); ("title", VStr "Fix crash!!")]]
                  scenario_repo)).
  repeat constructor.
Defined.

Lemma file_written_iff_witness :
  file_writes (run_push false true [[("title", VStr "a")]] scenario_repo) = 1%nat.
Proof.
  apply (proj1 (@file_written_iff tracker no_int_of_str false true
                  [[("title", VStr "a")]] scenario_repo)).
  by vm_compute.
Defined.

Lemma push_identifies_all_witness :
  Forall (fun i => has_number i = true)
    (input_file (run_push false true
       [[("title", VStr "a")]; [("number", VInt 42); ("title", VStr "b")]]
       scenario_repo)).
Proof.
  apply (@push_identifies_all tracker no_int_of_str). by vm_compute.
Defined.

(** An unknown identifier after a creation: the run stops at the lookup,
    the issue created before it stays, the file is not written. *)
Lemma push_stops_at_exception_witness :
  run_push false true
    [[("title", VStr "a")]; [("number", VInt 7)]; [("title", VStr "c")]]
    scenario_repo
  = mkOutcome
      (@mkState tracker (<[43 := mkGh 43 "a" None [] []]> scenario_repo)
         [CallCreateIssue [("title", VStr "a")]; CallGetIssue 7]
         (create_lines (mkIssue VNone (VStr "a") VNone VNone VNone [])
            ++ [EchoAdded 43; EchoBlank])
         true)
      (Some (GithubException 404))
      [[("title", VStr "a")]; [("number", VInt 7)]; [("title", VStr "c")]] 0.
Proof.
  apply (@push_stops_at_exception tracker no_int_of_str false true
           [[("title", VStr "a")]] [("number", VInt 7)] [[("title", VStr "c")]]
           scenario_repo
           (@mkState tracker (<[43 := mkGh 43 "a" None [] []]> scenario_repo)
              [CallCreateIssue [("title", VStr "a")]]
              (create_lines (mkIssue VNone (VStr "a") VNone VNone VNone [])
                 ++ [EchoAdded 43; EchoBlank])
              true)
           [[("number", VInt 43); ("title", VStr "a")]]).
  - by vm_compute.
  - by vm_compute.
Defined.

Lemma pull_records_witness :
  @pull tracker demo_shell tracker_listing demo_output
    (Some "jrs65/gh-sync-issues") (@mkG tracker demo_shell (Some "tok") [])
  = @mkPull tracker demo_shell (@mkG tracker demo_shell (Some "tok") []) None true
      (Some (list_to_yaml [from_github (mkGh 42 "Fix crash" None [] [])])).
Proof.
  apply (proj1 (proj2 (@pull_records tracker demo_shell tracker_listing demo_output
                         (Some "jrs65/gh-sync-issues")
                         (@mkG tracker demo_shell (Some "tok") []))
                  (@mkG tracker demo_shell (Some "tok") []) scenario_repo
                  [mkGh 42 "Fix crash" None [] []] eq_refl eq_refl eq_refl)).
  reflexivity.
Defined.

Lemma push_after_pull_witness :
  mutations (run_push false true
               [[("number", VInt 42); ("title", VStr "Fix crash"); ("body", VNone);
                 ("assignees", VList []); ("labels", VList [])]]
               scenario_repo) = [].
Proof.
  apply (@push_after_pull tracker demo_shell no_int_of_str tracker_listing
           demo_output false true
           (Some "jrs65/gh-sync-issues") (@mkG tracker demo_shell (Some "tok") [])
           (@mkG tracker demo_shell (Some "tok") []) scenario_repo
           [mkGh 42 "Fix crash" None [] []]
           (list_to_yaml [from_github (mkGh 42 "Fix crash" None [] [])])).
  - reflexivity.
  - reflexivity.
  - intros g Hg. apply list_elem_of_singleton in Hg as ->. reflexivity.
  - reflexivity.
  - repeat constructor.
Defined.

Lemma gh_keeps_handle_witness :
  @gh tracker demo_shell (@mkG tracker demo_shell (Some "tok") ["gh auth token"])
  = (@mkG tracker demo_shell (Some "tok") ["gh auth token"], inr ("tok" : @github tracker demo_shell)).
Proof.
  apply (proj1 (@gh_keeps_handle tracker demo_shell (@mkG tracker demo_shell None [])
                  (@mkG tracker demo_shell (Some "tok") ["gh auth token"])) "tok").
  reflexivity.
Defined.

Lemma gh_token_witness :
  @gh tracker demo_shell (@mkG tracker demo_shell None [])
  = (@mkG tracker demo_shell (Some "tok") ["gh auth token"], inr ("tok" : @github tracker demo_shell)).
Proof.
  apply (@gh_token tracker demo_shell (@mkG tracker demo_shell None []) "tok" LF); reflexivity.
Defined.

Lemma resolve_repo_commands_witness :
  @resolve_repo tracker demo_shell (Some "jrs65/gh-sync-issues")
    (@mkG tracker demo_shell (Some "tok") ["gh auth token"])
  = (@mkG tracker demo_shell (Some "tok") ["gh auth token"], inr scenario_repo).
Proof.
  apply (proj1 (proj1 (@resolve_repo_commands tracker demo_shell
                         (@mkG tracker demo_shell (Some "tok") ["gh auth token"]))
                  "jrs65/gh-sync-issues") "tok").
  reflexivity.
Defined.
